(** * c64u: the REST client of the C64 Ultimate, verified against its specification

    A shallow embedding of the Go sources under [tools/c64u]:
    - [internal/api/machine.go]: [hexToBytes], [FormatMemoryDump];
    - [internal/api/client.go]: [parseResponse], [GetString], [GetInt],
      [Put], [Post];
    - [internal/api/runners.go], [drives.go], [streams.go], [files.go]:
      the request builders;
    - [cmd/c64u/streams_files.go]: the [streams start] and
      [files create-dnp] command handlers.

    Go strings are byte strings and are modelled by [string]; a [[]byte] is a
    [list byte]; Go's [int] is a 64-bit integer, modelled by [Z] with the
    wrap-around written out where the code does arithmetic on it. *)

From Stdlib Require Import ZArith NArith List String Ascii Bool Lia.
From Stdlib Require Import Strings.Byte.
From Stdlib Require Import Floats.SpecFloat.
From stdpp Require Import base option list gmap strings.

Import ListNotations.
Local Open Scope string_scope.
Local Open Scope Z_scope.
#[local] Arguments String.append : simpl nomatch.

(** ** Go's [int] *)

Module GoInt.

Definition min_int : Z := - 2 ^ 63.
Definition max_int : Z := 2 ^ 63 - 1.

(** Two's complement wrap-around of a 64-bit signed integer. *)
Definition wrap (z : Z) : Z := (z + 2 ^ 63) mod 2 ^ 64 - 2 ^ 63.

Definition add (a b : Z) : Z := wrap (a + b).

Definition in_range (z : Z) : Prop := min_int <= z <= max_int.

End GoInt.

(** ** Bytes and strings *)

Definition byte_of_N (n : N) : byte := byte_of_ascii (ascii_of_N n).

(** [s[n:]] for [n <= len(s)]. *)
Fixpoint string_drop (n : nat) (s : string) : string :=
  match n, s with
  | O, _ => s
  | S n', String _ s' => string_drop n' s'
  | S _, EmptyString => EmptyString
  end.

(** [s[:n]] for [n <= len(s)]. *)
Fixpoint string_take (n : nat) (s : string) : string :=
  match n, s with
  | O, _ => EmptyString
  | S n', String c s' => String c (string_take n' s')
  | S _, EmptyString => EmptyString
  end.

(** ** Package [fmt] and [strconv]: the verbs the client uses *)

Module fmt.

(** The digit tables of [fmt] ([ldigits] is also the table of
    [strconv] and [encoding/hex]). *)
Definition udigits : string := "0123456789ABCDEF".
Definition ldigits : string := "0123456789abcdef".

Definition digit (table : string) (d : N) : ascii :=
  match String.get (N.to_nat d) table with
  | Some c => c
  | None => "?"%char
  end.

(** The digit loop of [fmtInteger]: least significant digit first, written
    from the end of the buffer. A [uint64] has at most 64 digits in any
    base, which bounds the loop. *)
Fixpoint digits_loop (fuel : nat) (base : N) (table : string) (u : N) (buf : string)
  : string :=
  match fuel with
  | O => buf
  | S fuel' =>
      if (base <=? u)%N
      then digits_loop fuel' base table (u / base)%N
             (String (digit table (u mod base)%N) buf)
      else String (digit table u) buf
  end.

Definition digits (base : N) (table : string) (u : N) : string :=
  digits_loop 64 base table u "".

Fixpoint zeros (n : nat) : string :=
  match n with
  | O => ""
  | S n' => String "0" (zeros n')
  end.

(** Zero padding up to the precision [prec]. *)
Definition pad_zeros (prec : nat) (ds : string) : string :=
  zeros (prec - String.length ds) ++ ds.

(** [%0<wid>X] applied to a signed integer: the sign takes one of the
    [wid] columns. *)
Definition Sprintf_0X (wid : nat) (n : Z) : string :=
  let negative := n <? 0 in
  let prec := if negative then (wid - 1)%nat else wid in
  let ds := pad_zeros prec (digits 16 udigits (Z.abs_N n)) in
  if negative then String "-" ds else ds.

(** [%04X] of an [int]. *)
Definition Sprintf_04X (n : Z) : string := Sprintf_0X 4 n.

(** [%02X] of a [byte]. *)
Definition Sprintf_02X (b : byte) : string :=
  pad_zeros 2 (digits 16 udigits (Byte.to_N b)).

(** [%d] of an [int], which is also [strconv.Itoa]. *)
Definition Sprintf_d (n : Z) : string :=
  let ds := digits 10 ldigits (Z.abs_N n) in
  if n <? 0 then String "-" ds else ds.

End fmt.

Module strconv.
Definition Itoa (n : Z) : string := fmt.Sprintf_d n.
End strconv.

(** ** Package [encoding/hex] *)

Module hex.

Inductive error : Type :=
| ErrLength                          (* odd length hex string *)
| InvalidByteError (c : ascii).      (* invalid byte *)

(** [fromHexChar]: the value of a hexadecimal digit, of either case. *)
Definition fromHexChar (c : ascii) : option N :=
  let n := N_of_ascii c in
  if ((48 <=? n) && (n <=? 57))%N then Some (n - 48)%N
  else if ((97 <=? n) && (n <=? 102))%N then Some (n - 97 + 10)%N
  else if ((65 <=? n) && (n <=? 70))%N then Some (n - 65 + 10)%N
  else None.

(** [Decode]: pairs of digits become bytes; the bytes decoded before the
    first error are returned together with the error. *)
Fixpoint Decode (src : string) : list byte * option error :=
  match src with
  | EmptyString => ([], None)
  | String p EmptyString =>
      match fromHexChar p with
      | None => ([], Some (InvalidByteError p))
      | Some _ => ([], Some ErrLength)
      end
  | String p (String q rest) =>
      match fromHexChar p with
      | None => ([], Some (InvalidByteError p))
      | Some a =>
          match fromHexChar q with
          | None => ([], Some (InvalidByteError q))
          | Some b =>
              let '(dst, err) := Decode rest in
              (byte_of_N (N.lor (N.shiftl a 4) b) :: dst, err)
          end
      end
  end.

Definition DecodeString (s : string) : list byte * option error := Decode s.

(** [EncodeToString]: two lower-case digits per byte. *)
Definition EncodeToString (src : list byte) : string :=
  String.concat ""
    (map (fun v => String (fmt.digit fmt.ldigits (N.shiftr (Byte.to_N v) 4))
                    (String (fmt.digit fmt.ldigits (N.land (Byte.to_N v) 15)) ""))
       src).

End hex.

(** ** [internal/api/machine.go] *)

(** [hexToBytes]: removes a [0x] prefix, pads an odd length with a leading
    zero and decodes. *)
Definition hexToBytes (hexStr : string) : list byte * option hex.error :=
  let hexStr :=
    if (2 <? String.length hexStr)%nat && String.eqb (string_take 2 hexStr) "0x"
    then string_drop 2 hexStr
    else hexStr in
  let hexStr :=
    if negb (String.length hexStr mod 2 =? 0)%nat
    then "0" ++ hexStr
    else hexStr in
  hex.DecodeString hexStr.

Definition bytesToHex (data : list byte) : string := hex.EncodeToString data.

(** [data[k]] of a slice. *)
Definition index (data : list byte) (k : nat) : byte := nth k data x00.

(** The column loop of a row: [for j := 0; j < 16; j++]. *)
Definition hex_columns (data : list byte) (i : nat) (buf : string) : string :=
  fold_left
    (fun buf j =>
       let buf :=
         if (i + j <? length data)%nat
         then buf ++ fmt.Sprintf_02X (index data (i + j)) ++ " "
         else buf ++ "   " in
       if (j =? 7)%nat then buf ++ " " else buf)
    (seq 0 16) buf.

(** The ASCII loop of a row: [for j := 0; j < 16 && i+j < len(data); j++]. *)
Fixpoint ascii_columns (fuel : nat) (data : list byte) (i j : nat) (buf : string)
  : string :=
  match fuel with
  | O => buf
  | S fuel' =>
      if (j <? 16)%nat && (i + j <? length data)%nat then
        let b := index data (i + j) in
        let buf :=
          if ((32 <=? Byte.to_N b) && (Byte.to_N b <=? 126))%N
          then buf ++ String (ascii_of_byte b) ""
          else buf ++ "." in
        ascii_columns fuel' data i (S j) buf
      else buf
  end.

(** The row loop: [for i := 0; i < len(data); i += 16]. Every round adds
    16 to [i], so [len(data)] rounds are enough. *)
Fixpoint dump_rows (fuel : nat) (data : list byte) (startAddr : Z) (i : nat)
  (buf : string) : string :=
  match fuel with
  | O => buf
  | S fuel' =>
      if (i <? length data)%nat then
        let buf := buf ++ fmt.Sprintf_04X (GoInt.add startAddr (Z.of_nat i)) ++ ": " in
        let buf := hex_columns data i buf in
        let buf := buf ++ " |" in
        let buf := ascii_columns 16 data i 0 buf in
        let buf := buf ++ "|" ++ String "010" "" in
        dump_rows fuel' data startAddr (i + 16) buf
      else buf
  end.

Definition FormatMemoryDump (data : list byte) (startAddr : Z) : string :=
  dump_rows (length data) data startAddr 0 "".

(** ** JSON values, as [encoding/json] stores them in an [interface{}] *)

#[warnings="-register-all"]
Inductive json : Type :=
| JNull
| JBool (b : bool)
| JNumber (f : spec_float)                 (* float64 *)
| JString (s : string)
| JArray (l : list json)                   (* []interface{} *)
| JObject (m : gmap string json).          (* map[string]interface{} *)

(** A Go result [(value, err)]. *)
Inductive result (A : Type) : Type :=
| Ok (a : A)
| Err (msg : string).
Arguments Ok {A} a.
Arguments Err {A} msg.

(** ** What the client takes from the Go runtime and standard library

    [json_Unmarshal body] is [json.Unmarshal(body, &jsonData)] for a
    [jsonData] of type [map[string]interface{}]: [None] when it returns an
    error, the decoded map otherwise (the [nil] map of the JSON text [null]
    reads like the empty map). [os_Open] gives the content streamed from a
    local file. The conversion [int(f)] of a [float64] that has no [int]
    value is left to the platform by the language. *)
Class Runtime : Type := {
  json_Unmarshal : list byte -> option (gmap string json);
  os_Open : string -> result (list byte);
  int_of_unrepresentable : spec_float -> Z
}.

(** The integer part of a float, rounded towards zero. *)
Definition float64_trunc (f : spec_float) : option Z :=
  match f with
  | S754_zero _ => Some 0
  | S754_finite s m e =>
      let a := if 0 <=? e then Z.pos m * 2 ^ e else Z.pos m / 2 ^ (- e) in
      Some (if s then - a else a)
  | S754_infinity _ | S754_nan => None
  end.

(** The conversion [int(f)]. *)
Definition int_of_float64 `{Runtime} (f : spec_float) : Z :=
  match float64_trunc f with
  | Some z =>
      if (GoInt.min_int <=? z) && (z <=? GoInt.max_int) then z
      else int_of_unrepresentable f
  | None => int_of_unrepresentable f
  end.

(** ** [internal/api/client.go] *)

Record Response : Type := mkResponse {
  Errors : list string;
  Data : gmap string json;
  StatusCode : Z;
  RawBody : list byte
}.

(** The part of an [http.Response] the client reads; [http_Body] is the
    result of [io.ReadAll(resp.Body)]. *)
Record http_Response : Type := mkHTTPResponse {
  http_StatusCode : Z;
  http_Status : string;
  http_Body : result (list byte)
}.

(** The loop over the [errors] array:
    [for _, e := range errors { if errStr, ok := e.(string); ok { append } }]. *)
Definition collect_errors (acc : list string) (errors : list json) : list string :=
  fold_left
    (fun acc e => match e with JString errStr => (acc ++ [errStr])%list | _ => acc end)
    errors acc.

(** The check of the HTTP status code that ends [parseResponse]. *)
Definition check_status (resp : http_Response) (apiResp : Response) : Response :=
  if (http_StatusCode resp <? 200) || (300 <=? http_StatusCode resp) then
    if (length (Errors apiResp) =? 0)%nat then
      mkResponse
        (Errors apiResp ++
           [("HTTP " ++ fmt.Sprintf_d (http_StatusCode resp) ++ ": "
               ++ http_Status resp)%string])%list
        (Data apiResp) (StatusCode apiResp) (RawBody apiResp)
    else apiResp
  else apiResp.

Definition parseResponse `{Runtime} (resp : http_Response) : result Response :=
  match http_Body resp with
  | Err err => Err ("failed to read response body: " ++ err)
  | Ok body =>
      let apiResp := mkResponse [] ∅ (http_StatusCode resp) body in
      if (0 <? length body)%nat then
        match json_Unmarshal body with
        | None =>
            (* Not JSON or invalid JSON - store as raw body *)
            Ok apiResp
        | Some jsonData =>
            let apiResp :=
              match jsonData !! "errors" with
              | Some (JArray errors) =>
                  mkResponse (collect_errors (Errors apiResp) errors)
                    (delete "errors" jsonData) (StatusCode apiResp) (RawBody apiResp)
              | _ =>
                  mkResponse (Errors apiResp) jsonData
                    (StatusCode apiResp) (RawBody apiResp)
              end in
            Ok (check_status resp apiResp)
        end
      else Ok (check_status resp apiResp)
  end.

Definition HasErrors (r : Response) : bool := (0 <? length (Errors r))%nat.

Definition GetString (r : Response) (key : string) : string :=
  match Data r !! key with
  | Some (JString val) => val
  | _ => ""
  end.

Definition GetInt `{Runtime} (r : Response) (key : string) : Z :=
  match Data r !! key with
  | Some (JNumber val) => int_of_float64 val
  | _ => 0
  end.

(** *** Requests

    [Get], [Put] and [Post] assemble the URL from [BaseURL], the endpoint and
    the query parameters and hand the request to [HTTPClient]. A request is
    recorded here by what the builder passed: method, endpoint, parameters
    (a [nil] map and an empty map both give no query) and body. URL parsing
    ([net/url]) and transmission ([net/http]) are the transport's, with their
    three ways to fail. The record is of the calls of [Get], [Put] and
    [Post], also of a call that [url.Parse] or [http.NewRequest] refuses
    before anything is sent ([sent] below leaves those out); what the
    endpoint text means as a URL, and the requests [net/http] adds when it
    follows a redirect, are not seen here. The [Verbose] trace on standard
    output is not modelled. *)

Inductive method : Type := MethodGet | MethodPut | MethodPost.

Record Request : Type := mkRequest {
  req_method : method;
  req_endpoint : string;
  req_params : gmap string string;
  req_body : option (list byte);
  req_content_type : option string
}.

Inductive transport_result : Type :=
| URLInvalid (err : string)          (* url.Parse *)
| RequestInvalid (err : string)      (* http.NewRequest *)
| TransportFailed (err : string)     (* HTTPClient.Get, HTTPClient.Do *)
| Responded (resp : http_Response).

Record Client : Type := mkClient {
  BaseURL : string;
  HTTPClient : Request -> transport_result;
  Verbose : bool
}.

(** Computations that call the client: the value and the requests handed to
    [Get], [Put] and [Post], in order. *)
Definition M (A : Type) : Type := (A * list Request)%type.

Definition ret {A} (a : A) : M A := (a, []).

Definition bind {A B} (m : M A) (f : A -> M B) : M B :=
  let '(a, w) := m in
  let '(b, w') := f a in
  (b, (w ++ w')%list).

Notation "'let*' x ':=' m 'in' k" := (bind m (fun x => k))
  (at level 10, x name, m at level 200, k at level 200).

Definition issued {A} (m : M A) : list Request := snd m.
Definition value {A} (m : M A) : A := fst m.

Definition roundtrip `{Runtime} (c : Client) (req : Request) : M (result Response) :=
  (match HTTPClient c req with
   | URLInvalid err => Err ("invalid URL: " ++ err)
   | RequestInvalid err => Err ("failed to create request: " ++ err)
   | TransportFailed err => Err ("HTTP request failed: " ++ err)
   | Responded resp => parseResponse resp
   end, [req]).

(** Whether a request gets past [url.Parse] and [http.NewRequest], and the
    calls of a computation that do. *)
Definition leaves (c : Client) (req : Request) : bool :=
  match HTTPClient c req with
  | URLInvalid _ | RequestInvalid _ => false
  | TransportFailed _ | Responded _ => true
  end.

Definition sent {A} (c : Client) (m : M A) : list Request :=
  List.filter (leaves c) (issued m).

Definition Get `{Runtime} (c : Client) (endpoint : string) (params : gmap string string)
  : M (result Response) :=
  roundtrip c (mkRequest MethodGet endpoint params None None).

Definition Put `{Runtime} (c : Client) (endpoint : string) (params : gmap string string)
  : M (result Response) :=
  roundtrip c (mkRequest MethodPut endpoint params None None).

Definition Post `{Runtime} (c : Client) (endpoint : string) (body : list byte)
  (params : gmap string string) : M (result Response) :=
  roundtrip c (mkRequest MethodPost endpoint params (Some body)
                 (Some "application/octet-stream")).

(** ** [internal/api/runners.go] *)

Section Builders.
Context `{Runtime}.

Definition SidPlay (c : Client) (file : string) (songNr : Z) : M (result Response) :=
  let params : gmap string string := {[ "file" := file ]} in
  let params := if 0 <? songNr then <["songnr" := strconv.Itoa songNr]> params
                else params in
  Put c "/v1/runners:sidplay" params.

Definition SidPlayUpload (c : Client) (localFile : string) (songNr : Z)
  : M (result Response) :=
  match os_Open localFile with
  | Err err => ret (Err ("failed to open file: " ++ err))
  | Ok file =>
      let params : gmap string string := ∅ in
      let params := if 0 <? songNr then <["songnr" := strconv.Itoa songNr]> params
                    else params in
      Post c "/v1/runners:sidplay" file params
  end.

Definition ModPlay (c : Client) (file : string) : M (result Response) :=
  Put c "/v1/runners:modplay" {[ "file" := file ]}.

Definition ModPlayUpload (c : Client) (localFile : string) : M (result Response) :=
  match os_Open localFile with
  | Err err => ret (Err ("failed to open file: " ++ err))
  | Ok file => Post c "/v1/runners:modplay" file ∅
  end.

Definition LoadPRG (c : Client) (file : string) : M (result Response) :=
  Put c "/v1/runners:load_prg" {[ "file" := file ]}.

Definition LoadPRGUpload (c : Client) (localFile : string) : M (result Response) :=
  match os_Open localFile with
  | Err err => ret (Err ("failed to open file: " ++ err))
  | Ok file => Post c "/v1/runners:load_prg" file ∅
  end.

Definition RunPRG (c : Client) (file : string) : M (result Response) :=
  Put c "/v1/runners:run_prg" {[ "file" := file ]}.

Definition RunPRGUpload (c : Client) (localFile : string) : M (result Response) :=
  match os_Open localFile with
  | Err err => ret (Err ("failed to open file: " ++ err))
  | Ok file => Post c "/v1/runners:run_prg" file ∅
  end.

Definition RunCRT (c : Client) (file : string) : M (result Response) :=
  Put c "/v1/runners:run_crt" {[ "file" := file ]}.

Definition RunCRTUpload (c : Client) (localFile : string) : M (result Response) :=
  match os_Open localFile with
  | Err err => ret (Err ("failed to open file: " ++ err))
  | Ok file => Post c "/v1/runners:run_crt" file ∅
  end.

(** ** [internal/api/drives.go] *)

Definition DrivesMount (c : Client) (drive image imageType mode : string)
  : M (result Response) :=
  let params : gmap string string := {[ "image" := image ]} in
  let params := if negb (String.eqb imageType "") then <["type" := imageType]> params
                else params in
  let params := if negb (String.eqb mode "") then <["mode" := mode]> params
                else params in
  let endpoint := "/v1/drives/" ++ drive ++ ":mount" in
  Put c endpoint params.

Definition DrivesMountUpload (c : Client) (drive localFile imageType mode : string)
  : M (result Response) :=
  match os_Open localFile with
  | Err err => ret (Err ("failed to open file: " ++ err))
  | Ok file =>
      let params : gmap string string := ∅ in
      let params := if negb (String.eqb imageType "") then <["type" := imageType]> params
                    else params in
      let params := if negb (String.eqb mode "") then <["mode" := mode]> params
                    else params in
      let endpoint := "/v1/drives/" ++ drive ++ ":mount" in
      Post c endpoint file params
  end.

Definition DrivesLoadROM (c : Client) (drive file : string) : M (result Response) :=
  let endpoint := "/v1/drives/" ++ drive ++ ":load_rom" in
  Put c endpoint {[ "file" := file ]}.

Definition DrivesLoadROMUpload (c : Client) (drive localFile : string)
  : M (result Response) :=
  match os_Open localFile with
  | Err err => ret (Err ("failed to open file: " ++ err))
  | Ok file =>
      let endpoint := "/v1/drives/" ++ drive ++ ":load_rom" in
      Post c endpoint file ∅
  end.

(** ** [internal/api/streams.go] *)

Definition StreamsStart (c : Client) (stream ip : string) : M (result Response) :=
  let endpoint := "/v1/streams/" ++ stream ++ ":start" in
  Put c endpoint {[ "ip" := ip ]}.

(** ** [internal/api/files.go] *)

Definition FilesCreateD64 (c : Client) (path : string) (tracks : Z) (diskName : string)
  : M (result Response) :=
  let params : gmap string string := ∅ in
  let params := if 0 <? tracks then <["tracks" := strconv.Itoa tracks]> params
                else params in
  let params := if negb (String.eqb diskName "") then <["diskname" := diskName]> params
                else params in
  let endpoint := "/v1/files/" ++ path ++ ":create_d64" in
  Put c endpoint params.

Definition FilesCreateDNP (c : Client) (path : string) (tracks : Z) (diskName : string)
  : M (result Response) :=
  let params : gmap string string := {[ "tracks" := strconv.Itoa tracks ]} in
  let params := if negb (String.eqb diskName "") then <["diskname" := diskName]> params
                else params in
  let endpoint := "/v1/files/" ++ path ++ ":create_dnp" in
  Put c endpoint params.

(** ** [cmd/c64u/streams_files.go] *)

(** A value handed to the formatter. *)
Inductive fvalue : Type :=
| VString (s : string)
| VInt (n : Z).

(** Why cobra rejects a command line before [Run]. *)
Inductive usage : Type :=
| ArgCount (accepts received : nat)       (* cobra.ExactArgs *)
| RequiredFlag (name : string).           (* MarkFlagRequired *)

(** How a command ends: cobra rejects the command line before [Run];
    [formatter.Error] reports and exits with status 1; or
    [formatter.Success] reports. *)
Inductive Outcome : Type :=
| UsageError (why : usage)
| FormatterError (message : string) (errors : list string)
| FormatterSuccess (message : string) (data : gmap string fvalue).

(** A [map[string]bool] read at a key: [false] when the key is absent. *)
Definition lookup_bool (m : gmap string bool) (k : string) : bool :=
  default false (m !! k).

(** A [map[string]int] read at a key: [0] when the key is absent. *)
Definition lookup_int (m : gmap string Z) (k : string) : Z :=
  default 0 (m !! k).

(** [streams start <stream> <ip>], with [Args: cobra.ExactArgs(2)]. *)
Definition streamsStartCmd (apiClient : Client) (args : list string) : M Outcome :=
  match args with
  | [stream; ip] =>
      let validStreams : gmap string bool :=
        <["video" := true]> (<["audio" := true]> (<["debug" := true]> ∅)) in
      if negb (lookup_bool validStreams stream) then
        ret (FormatterError "Invalid stream type"
               ["Stream '" ++ stream ++ "' is not valid";
                "Valid streams: video, audio, debug"])
      else
        let* r := StreamsStart apiClient stream ip in
        match r with
        | Err err => ret (FormatterError "Failed to start stream" [err])
        | Ok resp =>
            if HasErrors resp then
              ret (FormatterError "API returned errors" (Errors resp))
            else
              let ports : gmap string Z :=
                <["video" := 11000]> (<["audio" := 11001]> (<["debug" := 11002]> ∅)) in
              let data : gmap string fvalue :=
                <["stream" := VString stream]>
                  (<["destination" :=
                       VString (ip ++ ":" ++ fmt.Sprintf_d (lookup_int ports stream))]> ∅) in
              ret (FormatterSuccess "Stream started" data)
        end
  | _ => ret (UsageError (ArgCount 2 (length args)))
  end.

(** The flags of [files create-dnp]: [None] when the flag is not on the
    command line. [tracks] has default 0 and is marked required, [name]
    has default [""]. *)
Record DNPFlags : Type := mkDNPFlags {
  flag_tracks : option Z;
  flag_name : option string
}.

(** [files create-dnp <path> --tracks N [--name NAME]], with
    [Args: cobra.ExactArgs(1)] and [MarkFlagRequired("tracks")]. *)
Definition filesCreateDNPCmd (apiClient : Client) (args : list string)
  (flags : DNPFlags) : M Outcome :=
  match args with
  | [path] =>
      match flag_tracks flags with
      | None => ret (UsageError (RequiredFlag "tracks"))
      | Some _ =>
          let tracks := default 0 (flag_tracks flags) in
          let name := default "" (flag_name flags) in
          if tracks =? 0 then
            ret (FormatterError "Missing required flag"
                   ["--tracks is required for DNP images"])
          else if 255 <? tracks then
            ret (FormatterError "Invalid tracks value"
                   ["DNP images support max 255 tracks"])
          else
            let* r := FilesCreateDNP apiClient path tracks name in
            match r with
            | Err err => ret (FormatterError "Failed to create DNP image" [err])
            | Ok resp =>
                if HasErrors resp then
                  ret (FormatterError "API returned errors" (Errors resp))
                else
                  let data : gmap string fvalue :=
                    <["path" := VString path]> (<["tracks" := VInt tracks]> ∅) in
                  let data := if negb (String.eqb name "")
                              then <["name" := VString name]> data else data in
                  ret (FormatterSuccess "DNP image created" data)
            end
      end
  | _ => ret (UsageError (ArgCount 1 (length args)))
  end.

End Builders.

(** ** Package [strconv]: [ParseInt] *)

Inductive parse_error : Type :=
| ErrSyntax          (* invalid syntax *)
| ErrRange.          (* value out of range *)

(** [lower(c)]: [c | ('x' - 'X')]. *)
Definition strconv_lower (c : N) : N := N.lor c 32.

(** The loop of [ParseUint(s, 16, 64)] over the bytes of [s], with [n] the
    number read so far: the cutoff is [maxUint64/16 + 1] and [maxVal] is
    [1<<64 - 1]. *)
Fixpoint ParseUint16_loop (s : string) (n : N) : N * option parse_error :=
  match s with
  | EmptyString => (n, None)
  | String ch s' =>
      let c := N_of_ascii ch in
      let digit : option N :=
        if ((48 <=? c) && (c <=? 57))%N then Some (c - 48)%N
        else if ((97 <=? strconv_lower c) && (strconv_lower c <=? 122))%N
             then Some (strconv_lower c - 97 + 10)%N
             else None in
      match digit with
      | None => (0%N, Some ErrSyntax)
      | Some d =>
          if (16 <=? d)%N then (0%N, Some ErrSyntax)
          else if ((2 ^ 64 - 1) / 16 + 1 <=? n)%N then ((2 ^ 64 - 1)%N, Some ErrRange)
          else
            let n1 := (n * 16 + d)%N in
            if (2 ^ 64 - 1 <? n1)%N then ((2 ^ 64 - 1)%N, Some ErrRange)
            else ParseUint16_loop s' n1
      end
  end.

(** [strconv.ParseUint(s, 16, 64)]. *)
Definition ParseUint16 (s : string) : N * option parse_error :=
  match s with
  | EmptyString => (0%N, Some ErrSyntax)
  | _ => ParseUint16_loop s 0
  end.

(** [strconv.ParseInt(s, 16, 64)]: an optional sign, then [ParseUint]; a
    value that does not fit is clamped and reported as a range error. *)
Definition ParseInt16 (s : string) : Z * option parse_error :=
  match s with
  | EmptyString => (0, Some ErrSyntax)
  | String c0 rest =>
      let '(neg, s) :=
        if Ascii.eqb c0 "+" then (false, rest)
        else if Ascii.eqb c0 "-" then (true, rest)
        else (false, s) in
      match ParseUint16 s with
      | (_, Some ErrSyntax) => (0, Some ErrSyntax)
      | (un, err) =>
          let cutoff := (2 ^ 63)%N in
          if negb neg && (cutoff <=? un)%N then (Z.of_N cutoff - 1, Some ErrRange)
          else if neg && (cutoff <? un)%N then (- Z.of_N cutoff, Some ErrRange)
          else
            match err with
            | Some e => (0, Some e)
            | None => (if neg then - Z.of_N un else Z.of_N un, None)
            end
      end
  end.

Section MoreBuilders.
Context `{Runtime}.

(** ** [internal/api/machine.go]: memory *)

Definition MachineWriteMem (c : Client) (address data : string) : M (result Response) :=
  let params : gmap string string :=
    <["address" := address]> (<["data" := data]> ∅) in
  Put c "/v1/machine:writemem" params.

Definition MachineWriteMemFile (c : Client) (address filePath : string)
  : M (result Response) :=
  match os_Open filePath with
  | Err err => ret (Err ("failed to open file: " ++ err))
  | Ok file => Post c "/v1/machine:writemem" file {[ "address" := address ]}
  end.

Definition MachineReadMem (c : Client) (address : string) (length : Z)
  : M (result Response) :=
  let params : gmap string string := {[ "address" := address ]} in
  let params := if 0 <? length then <["length" := strconv.Itoa length]> params
                else params in
  Get c "/v1/machine:readmem" params.

(** ** [internal/api/streams.go], [files.go], [drives.go]: the rest *)

Definition StreamsStop (c : Client) (stream : string) : M (result Response) :=
  let endpoint := "/v1/streams/" ++ stream ++ ":stop" in
  Put c endpoint ∅.

Definition FilesInfo (c : Client) (path : string) : M (result Response) :=
  let endpoint := "/v1/files/" ++ path ++ ":info" in
  Get c endpoint ∅.

Definition FilesCreateD71 (c : Client) (path diskName : string) : M (result Response) :=
  let params : gmap string string := ∅ in
  let params := if negb (String.eqb diskName "") then <["diskname" := diskName]> params
                else params in
  let endpoint := "/v1/files/" ++ path ++ ":create_d71" in
  Put c endpoint params.

Definition FilesCreateD81 (c : Client) (path diskName : string) : M (result Response) :=
  let params : gmap string string := ∅ in
  let params := if negb (String.eqb diskName "") then <["diskname" := diskName]> params
                else params in
  let endpoint := "/v1/files/" ++ path ++ ":create_d81" in
  Put c endpoint params.

Definition DrivesSetMode (c : Client) (drive mode : string) : M (result Response) :=
  let endpoint := "/v1/drives/" ++ drive ++ ":set_mode" in
  Put c endpoint {[ "mode" := mode ]}.

(** ** [cmd/c64u/streams_files.go]: the rest of the validating commands *)

(** [streams stop <stream>], with [Args: cobra.ExactArgs(1)]. *)
Definition streamsStopCmd (apiClient : Client) (args : list string) : M Outcome :=
  match args with
  | [stream] =>
      let validStreams : gmap string bool :=
        <["video" := true]> (<["audio" := true]> (<["debug" := true]> ∅)) in
      if negb (lookup_bool validStreams stream) then
        ret (FormatterError "Invalid stream type"
               ["Stream '" ++ stream ++ "' is not valid";
                "Valid streams: video, audio, debug"])
      else
        let* r := StreamsStop apiClient stream in
        match r with
        | Err err => ret (FormatterError "Failed to stop stream" [err])
        | Ok resp =>
            if HasErrors resp then
              ret (FormatterError "API returned errors" (Errors resp))
            else
              ret (FormatterSuccess ("Stream '" ++ stream ++ "' stopped") ∅)
        end
  | _ => ret (UsageError (ArgCount 1 (length args)))
  end.

(** [drives set-mode <drive> <mode>], with [Args: cobra.ExactArgs(2)]. *)
Definition drivesSetModeCmd (apiClient : Client) (args : list string) : M Outcome :=
  match args with
  | [drive; mode] =>
      let validModes : gmap string bool :=
        <["1541" := true]> (<["1571" := true]> (<["1581" := true]> ∅)) in
      if negb (lookup_bool validModes mode) then
        ret (FormatterError "Invalid mode"
               ["Mode '" ++ mode ++ "' is not valid";
                "Valid modes: 1541, 1571, 1581"])
      else
        let* r := DrivesSetMode apiClient drive mode in
        match r with
        | Err err => ret (FormatterError "Failed to set drive mode" [err])
        | Ok resp =>
            if HasErrors resp then
              ret (FormatterError "API returned errors" (Errors resp))
            else
              let data : gmap string fvalue :=
                <["drive" := VString drive]> (<["mode" := VString mode]> ∅) in
              ret (FormatterSuccess "Drive mode changed" data)
        end
  | _ => ret (UsageError (ArgCount 2 (length args)))
  end.

(** The flags of [files create-d64]: [tracks] has default 35 and [name] has
    default [""]; neither is required. *)
Record D64Flags : Type := mkD64Flags {
  d64_tracks : option Z;
  d64_name : option string
}.

(** [files create-d64 <path> [--tracks N] [--name NAME]]. *)
Definition filesCreateD64Cmd (apiClient : Client) (args : list string)
  (flags : D64Flags) : M Outcome :=
  match args with
  | [path] =>
      let tracks := default 35 (d64_tracks flags) in
      let name := default "" (d64_name flags) in
      let* r := FilesCreateD64 apiClient path tracks name in
      match r with
      | Err err => ret (FormatterError "Failed to create D64 image" [err])
      | Ok resp =>
          if HasErrors resp then
            ret (FormatterError "API returned errors" (Errors resp))
          else
            let data : gmap string fvalue := {[ "path" := VString path ]} in
            let data := if 0 <? tracks then <["tracks" := VInt tracks]> data else data in
            let data := if negb (String.eqb name "")
                        then <["name" := VString name]> data else data in
            ret (FormatterSuccess "D64 image created" data)
      end
  | _ => ret (UsageError (ArgCount 1 (length args)))
  end.

(** ** [cmd/c64u/machine.go]: the memory commands *)

(** [machine write-mem <address> <data>], with [Args: cobra.ExactArgs(2)]. *)
Definition machineWriteMemCmd (apiClient : Client) (args : list string) : M Outcome :=
  match args with
  | [address; data] =>
      let* r := MachineWriteMem apiClient address data in
      match r with
      | Err err => ret (FormatterError "Failed to write memory" [err])
      | Ok resp =>
          if HasErrors resp then
            ret (FormatterError "API returned errors" (Errors resp))
          else
            ret (FormatterSuccess ("Wrote data to address $" ++ address) ∅)
      end
  | _ => ret (UsageError (ArgCount 2 (length args)))
  end.

(** The address of the first row of the dump: the address argument read by
    [strconv.ParseInt(address, 16, 64)], and 0 when that fails. *)
Definition dump_address (address : string) : Z :=
  match ParseInt16 address with
  | (addr, None) => addr
  | (_, Some _) => 0
  end.

(** How [machine read-mem] ends: the two errors, the data handed to
    [formatter.PrintData] with [--json], or the header and the dump printed
    on standard output. *)
Inductive ReadMemOutcome : Type :=
| ReadMemUsage (why : usage)
| ReadMemError (message : string) (errors : list string)
| ReadMemData (data : gmap string fvalue)
| ReadMemDump (header : string) (dump : string).

(** [machine read-mem <address> [--length N]], with [Args: cobra.ExactArgs(1)];
    the flag [length] has default 256 and [jsonOut] is the global [--json]. *)
Definition machineReadMemCmd (apiClient : Client) (jsonOut : bool) (args : list string)
  (flag_length : option Z) : M ReadMemOutcome :=
  match args with
  | [address] =>
      let length := default 256 flag_length in
      let* r := MachineReadMem apiClient address length in
      match r with
      | Err err => ret (ReadMemError "Failed to read memory" [err])
      | Ok resp =>
          if HasErrors resp then
            ret (ReadMemError "API returned errors" (Errors resp))
          else
            let addr := dump_address address in
            if jsonOut then
              ret (ReadMemData
                     (<["address" := VString ("$" ++ address)]>
                        (<["length" := VInt (Z.of_nat (List.length (RawBody resp)))]>
                           (<["data" := VString (hex.EncodeToString (RawBody resp))]> ∅))))
            else
              ret (ReadMemDump
                     ("Memory dump from $" ++ address ++ " ("
                        ++ fmt.Sprintf_d (Z.of_nat (List.length (RawBody resp)))
                        ++ " bytes)")
                     (FormatMemoryDump (RawBody resp) addr))
      end
  | _ => ret (ReadMemUsage (ArgCount 1 (List.length args)))
  end.

End MoreBuilders.

(** ** A reference runtime

    The theorems below hold for every [Runtime]. To run the client on
    concrete responses, this section gives one: a decoder for JSON texts
    as [encoding/json] reads them into a [map[string]interface{}] (objects,
    arrays nested 10000 deep at most, strings with their escapes, where a
    [\u] escape or a surrogate pair of them becomes the UTF-8 bytes of its
    rune and what is not a rune, in an escape or in the bytes of the text,
    becomes U+FFFD; numbers rounded to the nearest [float64]; [true],
    [false], [null]), a file system with one local file, and the conversion
    of the amd64 port for floats without an [int] value. *)

Module Reference.

Definition quote : ascii := "034"%char.
Definition backslash : ascii := "092"%char.

Definition is_space (c : ascii) : bool :=
  let n := N_of_ascii c in
  ((n =? 32) || (n =? 9) || (n =? 10) || (n =? 13))%N.

Definition is_digit (c : ascii) : bool :=
  let n := N_of_ascii c in ((48 <=? n) && (n <=? 57))%N.

Fixpoint skip_space (s : string) : string :=
  match s with
  | String c s' => if is_space c then skip_space s' else s
  | EmptyString => s
  end.

(** [getu4]: the number of the four hexadecimal digits at the head of the
    text. *)
Definition getu4 (s : string) : option N :=
  match s with
  | String a (String b (String c (String d _))) =>
      match hex.fromHexChar a, hex.fromHexChar b, hex.fromHexChar c, hex.fromHexChar d with
      | Some x, Some y, Some z, Some w => Some (4096 * x + 256 * y + 16 * z + w)%N
      | _, _, _, _ => None
      end
  | _ => None
  end.

(** [utf8.EncodeRune], for a rune up to 0x10FFFF that is no surrogate. *)
Definition utf8_encode (r : N) : string :=
  let ch (n : N) := ascii_of_N n in
  (if r <? 0x80 then String (ch r) ""
   else if r <? 0x800 then
     String (ch (0xC0 + r / 64)) (String (ch (0x80 + r mod 64)) "")
   else if r <? 0x10000 then
     String (ch (0xE0 + r / 4096))
       (String (ch (0x80 + (r / 64) mod 64)) (String (ch (0x80 + r mod 64)) ""))
   else
     String (ch (0xF0 + r / 262144))
       (String (ch (0x80 + (r / 4096) mod 64))
          (String (ch (0x80 + (r / 64) mod 64)) (String (ch (0x80 + r mod 64)) ""))))%N.

Definition replacement_char : N := 0xFFFD%N.

(** The rune of a [\u] escape with the digits [r], followed by [rest], and
    the number of characters of [rest] it takes with it: a first half of a
    surrogate pair takes the escape of the second half; a surrogate
    without its pair is the replacement character. *)
Definition escaped_rune (r : N) (rest : string) : N * nat :=
  if ((0xD800 <=? r) && (r <? 0xE000))%N then
    match rest with
    | String b (String u digits) =>
        if Ascii.eqb b backslash && Ascii.eqb u "u" then
          match getu4 digits with
          | Some r2 =>
              if ((r <? 0xDC00) && (0xDC00 <=? r2) && (r2 <? 0xE000))%N
              then ((0x10000 + (r - 0xD800) * 1024 + (r2 - 0xDC00))%N, 6%nat)
              else (replacement_char, 0%nat)
          | None => (replacement_char, 0%nat)
          end
        else (replacement_char, 0%nat)
    | _ => (replacement_char, 0%nat)
    end
  else (r, 0%nat).

Definition byte_at (s : string) (k : nat) : N :=
  match String.get k s with
  | Some c => N_of_ascii c
  | None => 0%N
  end.

(** [utf8.DecodeRune] at a byte above 0x7F: the length of the encoding of a
    rune at the head of the text, if there is one. *)
Definition utf8_size (s : string) : option nat :=
  let within (lo hi b : N) : bool := ((lo <=? b) && (b <=? hi))%N in
  let b0 := byte_at s 0 in
  let b1 := byte_at s 1 in
  let b2 := byte_at s 2 in
  let b3 := byte_at s 3 in
  if within 0xC2%N 0xDF%N b0 then
    if within 0x80%N 0xBF%N b1 then Some 2%nat else None
  else if within 0xE0%N 0xEF%N b0 then
    let lo := if (b0 =? 0xE0)%N then 0xA0%N else 0x80%N in
    let hi := if (b0 =? 0xED)%N then 0x9F%N else 0xBF%N in
    if within lo hi b1 && within 0x80%N 0xBF%N b2 then Some 3%nat else None
  else if within 0xF0%N 0xF4%N b0 then
    let lo := if (b0 =? 0xF0)%N then 0x90%N else 0x80%N in
    let hi := if (b0 =? 0xF4)%N then 0x8F%N else 0xBF%N in
    if within lo hi b1 && within 0x80%N 0xBF%N b2 && within 0x80%N 0xBF%N b3
    then Some 4%nat else None
  else None.

(** The character of a single-character escape. *)
Definition unescape (e : ascii) : option ascii :=
  if Ascii.eqb e quote then Some quote
  else if Ascii.eqb e backslash then Some backslash
  else if Ascii.eqb e "/" then Some "/"%char
  else if Ascii.eqb e "b" then Some "008"%char
  else if Ascii.eqb e "f" then Some "012"%char
  else if Ascii.eqb e "n" then Some "010"%char
  else if Ascii.eqb e "r" then Some "013"%char
  else if Ascii.eqb e "t" then Some "009"%char
  else None.

Definition prepend (text : string) (r : option (string * string))
  : option (string * string) :=
  match r with
  | Some (t, rest) => Some (text ++ t, rest)
  | None => None
  end.

(** The text of a string after its opening quote, read one character at a
    time: [skip] characters of an escape already read are passed over, and
    [copy] bytes of a rune already recognised are copied. *)
Fixpoint scan_string (s : string) (skip copy : nat) : option (string * string) :=
  match s with
  | EmptyString => None
  | String c s' =>
      match skip, copy with
      | S skip', _ => scan_string s' skip' copy
      | O, S copy' => prepend (String c "") (scan_string s' 0 copy')
      | O, O =>
          if Ascii.eqb c quote then Some ("", s')
          else if Ascii.eqb c backslash then
            match s' with
            | EmptyString => None
            | String e s'' =>
                if Ascii.eqb e "u" then
                  match getu4 s'' with
                  | None => None
                  | Some r =>
                      let '(rune, more) := escaped_rune r (string_drop 4 s'') in
                      prepend (utf8_encode rune) (scan_string s' (5 + more) 0)
                  end
                else
                  match unescape e with
                  | Some u => prepend (String u "") (scan_string s' 1 0)
                  | None => None
                  end
            end
          else if (N_of_ascii c <? 32)%N then None
          else if (N_of_ascii c <? 128)%N then
            prepend (String c "") (scan_string s' 0 0)
          else
            match utf8_size s with
            | Some n => prepend (String c "") (scan_string s' 0 (n - 1))
            | None => prepend (utf8_encode replacement_char) (scan_string s' 0 0)
            end
      end
  end.

(** A run of decimal digits: its value, its length and the rest. *)
Fixpoint scan_digits (s : string) (acc : N) (count : nat) : N * nat * string :=
  match s with
  | String c s' =>
      if is_digit c
      then scan_digits s' (10 * acc + (N_of_ascii c - 48))%N (S count)
      else (acc, count, s)
  | EmptyString => (acc, count, s)
  end.

(** [d * 10 ^ e] rounded to the nearest [float64], ties to even; [None]
    when the value is out of range. *)
Definition float64_of_decimal (negative : bool) (d : N) (e : Z) : option spec_float :=
  let f :=
    match d with
    | N0 => S754_zero negative
    | Npos p =>
        let sign (m : Z) := if negative then - m else m in
        if 0 <=? e then
          binary_normalize 53 1024 (sign (Z.pos p * 10 ^ e)) 0 negative
        else
          let den := 10 ^ (- e) in
          let k := Z.max 0 (56 + Z.log2 den - Z.log2 (Z.pos p)) in
          let num := Z.pos p * 2 ^ k in
          let q := num / den in
          let sticky := if num mod den =? 0 then 0 else 1 in
          binary_normalize 53 1024 (sign (2 * q + sticky)) (- k - 1) negative
    end in
  match f with
  | S754_infinity _ | S754_nan => None
  | _ => Some f
  end.

Definition scan_number (s : string) : option (spec_float * string) :=
  let '(negative, s) :=
    match s with
    | String "-" s' => (true, s')
    | _ => (false, s)
    end in
  let int_part : option (N * string) :=
    match s with
    | String "0" s' => Some (0%N, s')
    | String c _ =>
        if is_digit c then let '(d, _, rest) := scan_digits s 0%N 0%nat in Some (d, rest)
        else None
    | EmptyString => None
    end in
  match int_part with
  | None => None
  | Some (d, s) =>
      let frac_part : option (N * Z * string) :=
        match s with
        | String "." s' =>
            let '(d', count, rest) := scan_digits s' d 0%nat in
            if (count =? 0)%nat then None else Some (d', - Z.of_nat count, rest)
        | _ => Some (d, 0, s)
        end in
      match frac_part with
      | None => None
      | Some (d, e, s) =>
          let exponent (s' : string) : option (Z * string) :=
            let '(minus, s') :=
              match s' with
              | String "-" s'' => (true, s'')
              | String "+" s'' => (false, s'')
              | _ => (false, s')
              end in
            let '(x, count, rest) := scan_digits s' 0%N 0%nat in
            if (count =? 0)%nat then None
            else Some (if minus then - Z.of_N x else Z.of_N x, rest) in
          let exp_part : option (Z * string) :=
            match s with
            | String "e" s' => exponent s'
            | String "E" s' => exponent s'
            | _ => Some (0, s)
            end in
          match exp_part with
          | None => None
          | Some (x, rest) =>
              match float64_of_decimal negative d (e + x) with
              | Some f => Some (f, rest)
              | None => None
              end
          end
      end
  end.

Definition expect (prefix : string) (s : string) : option string :=
  if String.eqb (string_take (String.length prefix) s) prefix
  then Some (string_drop (String.length prefix) s)
  else None.

(** The scanner refuses arrays and objects nested deeper than this. *)
Definition maxNestingDepth : N := 10000%N.

(** A value, the elements of an array after [[], the members of an object
    after [{], at a nesting [depth]; every call consumes input, which
    bounds the recursion. *)
Fixpoint scan_value (fuel : nat) (depth : N) (s : string) : option (json * string) :=
  match fuel with
  | O => None
  | S fuel' =>
      match skip_space s with
      | EmptyString => None
      | String c s' as s0 =>
          if Ascii.eqb c "{" then
            if (maxNestingDepth <? depth + 1)%N then None
            else
              match skip_space s' with
              | String "}" rest => Some (JObject ∅, rest)
              | s1 =>
                  match scan_members fuel' (depth + 1) s1 ∅ with
                  | Some (m, rest) => Some (JObject m, rest)
                  | None => None
                  end
              end
          else if Ascii.eqb c "[" then
            if (maxNestingDepth <? depth + 1)%N then None
            else
              match skip_space s' with
              | String "]" rest => Some (JArray [], rest)
              | s1 =>
                  match scan_elements fuel' (depth + 1) s1 [] with
                  | Some (l, rest) => Some (JArray l, rest)
                  | None => None
                  end
              end
          else if Ascii.eqb c quote then
            match scan_string s' 0 0 with
            | Some (text, rest) => Some (JString text, rest)
            | None => None
            end
          else if Ascii.eqb c "t" then
            match expect "true" s0 with Some rest => Some (JBool true, rest) | None => None end
          else if Ascii.eqb c "f" then
            match expect "false" s0 with Some rest => Some (JBool false, rest) | None => None end
          else if Ascii.eqb c "n" then
            match expect "null" s0 with Some rest => Some (JNull, rest) | None => None end
          else
            match scan_number s0 with
            | Some (f, rest) => Some (JNumber f, rest)
            | None => None
            end
      end
  end
with scan_elements (fuel : nat) (depth : N) (s : string) (acc : list json)
  : option (list json * string) :=
  match fuel with
  | O => None
  | S fuel' =>
      match scan_value fuel' depth s with
      | None => None
      | Some (v, rest) =>
          match skip_space rest with
          | String "," rest' => scan_elements fuel' depth rest' (acc ++ [v])%list
          | String "]" rest' => Some ((acc ++ [v])%list, rest')
          | _ => None
          end
      end
  end
with scan_members (fuel : nat) (depth : N) (s : string) (acc : gmap string json)
  : option (gmap string json * string) :=
  match fuel with
  | O => None
  | S fuel' =>
      match skip_space s with
      | String c s' =>
          if Ascii.eqb c quote then
            match scan_string s' 0 0 with
            | None => None
            | Some (key, rest) =>
                match skip_space rest with
                | String ":" rest' =>
                    match scan_value fuel' depth rest' with
                    | None => None
                    | Some (v, rest'') =>
                        match skip_space rest'' with
                        | String "," r => scan_members fuel' depth r (<[key := v]> acc)
                        | String "}" r => Some (<[key := v]> acc, r)
                        | _ => None
                        end
                    end
                | _ => None
                end
            end
          else None
      | EmptyString => None
      end
  end.

(** [json.Unmarshal] into a [map[string]interface{}]: the text must be one
    value, an object or [null]. *)
Definition Unmarshal (data : list byte) : option (gmap string json) :=
  let s := string_of_list_byte data in
  match scan_value (2 * String.length s + 2) 0 s with
  | Some (v, rest) =>
      match skip_space rest, v with
      | EmptyString, JObject m => Some m
      | EmptyString, JNull => Some ∅
      | _, _ => None
      end
  | None => None
  end.

(** The local file system: one SID tune of four bytes. *)
Definition Open (path : string) : result (list byte) :=
  if String.eqb path "tune.sid" then Ok [x50; x53; x49; x44]
  else Err ("open " ++ path ++ ": no such file or directory").

Definition runtime : Runtime :=
  {| json_Unmarshal := Unmarshal;
     os_Open := Open;
     int_of_unrepresentable := fun _ => GoInt.min_int |}.

(** A JSON string literal. *)
Definition q (s : string) : string := String quote (s ++ String quote "").

(** A transport that answers every request with the same response. *)
Definition answering (resp : http_Response) : Client :=
  mkClient "http://localhost:80" (fun _ => Responded resp) false.

(** The escape [url.Parse] stops at: a percent sign that two hexadecimal
    digits do not follow, with the two characters after it at most. *)
Fixpoint bad_escape (s : string) : option string :=
  match s with
  | EmptyString => None
  | String c rest =>
      if Ascii.eqb c "%" then
        match rest with
        | String a (String b _) =>
            match hex.fromHexChar a, hex.fromHexChar b with
            | Some _, Some _ => bad_escape rest
            | _, _ => Some (String c (String a (String b "")))
            end
        | _ => Some s
        end
      else bad_escape rest
  end.

(** The text in front of the first [?] or [#], where the path ends. *)
Fixpoint path_of (s : string) : string :=
  match s with
  | EmptyString => EmptyString
  | String c rest =>
      if Ascii.eqb c "?" || Ascii.eqb c "#" then EmptyString
      else String c (path_of rest)
  end.

(** A transport whose [url.Parse] refuses an endpoint with a malformed
    escape in its path, and that answers every other request with the
    same response. *)
Definition parsing (resp : http_Response) : Client :=
  mkClient "http://localhost:80"
    (fun req =>
       match bad_escape (path_of (req_endpoint req)) with
       | Some e =>
           URLInvalid ("parse " ++ q ("http://localhost:80" ++ req_endpoint req)
                         ++ ": invalid URL escape " ++ q e)
       | None => Responded resp
       end)
    false.

End Reference.

(** ** The codec and the dump as the specification words them *)

Module Spec.

(** The characters [[0-9a-fA-F]]. *)
Definition hex_char (c : ascii) : Prop :=
  In c (list_ascii_of_string "0123456789abcdefABCDEF").

Definition all_hex (s : string) : Prop :=
  Forall hex_char (list_ascii_of_string s).

(** [stripped s body]: [body] is what is left of [s] once an optional
    [0x] prefix is removed; the prefix counts only when something follows
    it. *)
Inductive stripped : string -> string -> Prop :=
| stripped_prefix (body : string) :
    body <> "" -> stripped ("0x" ++ body) body
| stripped_plain (s : string) :
    (forall body, body <> "" -> s <> "0x" ++ body) -> stripped s s.

(** The number a string of hexadecimal digits writes in base 16. *)
Fixpoint base16_from (acc : N) (s : string) : option N :=
  match s with
  | EmptyString => Some acc
  | String c s' =>
      match hex.fromHexChar c with
      | Some d => base16_from (16 * acc + d)%N s'
      | None => None
      end
  end.

Definition base16 (s : string) : option N := base16_from 0 s.

(** The number a byte sequence writes in base 256, most significant byte
    first. *)
Definition big_endian (bs : list byte) : N :=
  fold_left (fun acc b => (256 * acc + Byte.to_N b)%N) bs 0%N.

(** The strings of a list, one after the other. *)
Definition join (l : list string) : string := fold_right String.append "" l.

(** One column slot: the byte at offset [k] of the data in column [j]. *)
Definition cell (data : list byte) (k j : nat) : string :=
  (if (k <? length data)%nat then fmt.Sprintf_02X (index data k) ++ " " else "   ")
    ++ (if (j =? 7)%nat then " " else "").

(** Printable ASCII as itself, anything else as a dot. *)
Definition printable (b : byte) : ascii :=
  if ((32 <=? Byte.to_N b) && (Byte.to_N b <=? 126))%N then ascii_of_byte b
  else "."%char.

Definition newline : string := String "010" "".

(** The row of the bytes at offsets [i .. i+15]; the address field is the
    one of the code, [%04X] of the [int] sum (its digits are the matter of
    the theorems on addresses, and [DumpSpec] writes them out). *)
Definition row (data : list byte) (start : Z) (i : nat) : string :=
  fmt.Sprintf_04X (GoInt.add start (Z.of_nat i)) ++ ": "
    ++ join (map (fun j => cell data (i + j) j) (seq 0 16))
    ++ " |"
    ++ string_of_list_ascii (map printable (firstn 16 (skipn i data)))
    ++ "|" ++ newline.

(** The row offsets 0, 16, 32, ... below [n]. *)
Definition row_offsets (n : nat) : list nat :=
  map (fun k => (16 * k)%nat) (seq 0 ((n + 15) / 16)).

Definition format_dump (data : list byte) (start : Z) : string :=
  join (map (row data start) (row_offsets (length data))).

(** An upper-case hexadecimal digit. *)
Definition upper_hex_char (c : ascii) : Prop :=
  In c (list_ascii_of_string "0123456789ABCDEF").

(** The string entries of a JSON array, in order. *)
Fixpoint strings_of (l : list json) : list string :=
  match l with
  | [] => []
  | JString s :: l' => s :: strings_of l'
  | _ :: l' => strings_of l'
  end.

(** The synthesized error of a response without a 2xx status. *)
Definition status_error (code : Z) (status : string) : string :=
  "HTTP " ++ fmt.Sprintf_d code ++ ": " ++ status.

End Spec.

(** ** The dump with its numbers written out digit by digit

    The layout once more, with every number written by its value: a field
    of [w] hexadecimal digits holds the digits of the number from the most
    significant to the least, each digit 0..9 as [0-9] and 10..15 as
    [A-F]. Nothing of the formatting code is used here. *)

Module DumpSpec.

Definition upper_digit (d : N) : ascii :=
  if (d <? 10)%N then ascii_of_N (48 + d) else ascii_of_N (55 + d).

(** [n] in exactly [w] upper-case hexadecimal digits. *)
Fixpoint hex (w : nat) (n : N) : string :=
  match w with
  | O => ""
  | S w' => hex w' (n / 16) ++ String (upper_digit (n mod 16)) ""
  end.

(** One column slot: the byte at offset [k] of the data in column [j]. *)
Definition cell (data : list byte) (k j : nat) : string :=
  match nth_error data k with
  | Some b => hex 2 (Byte.to_N b) ++ " "
  | None => "   "
  end ++ (if (j =? 7)%nat then " " else "").

(** The row of the bytes at offsets [i .. i+15], at the address
    [start + i], a sum of integers. *)
Definition row (data : list byte) (start : Z) (i : nat) : string :=
  hex 4 (Z.to_N (start + Z.of_nat i)) ++ ": "
    ++ Spec.join (map (fun j => cell data (i + j) j) (seq 0 16))
    ++ " |"
    ++ string_of_list_ascii (map Spec.printable (firstn 16 (skipn i data)))
    ++ "|" ++ Spec.newline.

Definition format_dump (data : list byte) (start : Z) : string :=
  Spec.join (map (row data start) (Spec.row_offsets (length data))).

End DumpSpec.

(** ** Auxiliary notions of the proofs *)

Definition even_length (s : string) : Prop := (String.length s mod 2 = 0)%nat.

(** The string [hexToBytes] decodes: the body, with a zero in front when its
    length is odd. *)
Definition padded (body : string) : string :=
  if (String.length body mod 2 =? 0)%nat then body else String "0" body.

(** [ds] is the hexadecimal numeral of [u]: upper-case digits, no leading
    zero unless it is the single digit, and the value [u]. *)
Definition hex_numeral (ds : string) (u : N) : Prop :=
  (1 <= String.length ds)%nat /\
  (u < 16 ^ N.of_nat (String.length ds))%N /\
  (String.length ds = 1%nat \/ (16 ^ N.of_nat (String.length ds) <= 16 * u)%N) /\
  Spec.all_hex ds /\
  Forall Spec.upper_hex_char (list_ascii_of_string ds) /\
  forall acc rest,
    Spec.base16_from acc (ds ++ rest)
    = Spec.base16_from (acc * 16 ^ N.of_nat (String.length ds) + u) rest.

(** The errors a response body carries: the string entries of the [errors]
    array of the decoded object; none when the body is empty, does not
    decode, or has no [errors] array. *)
Definition body_errors (body : list byte) (decoded : option (gmap string json))
  : list string :=
  match body, decoded with
  | _ :: _, Some jsonData =>
      match jsonData !! "errors" with
      | Some (JArray errors) => Spec.strings_of errors
      | _ => []
      end
  | _, _ => []
  end.

(** A body with an [errors] array and one more field,
    [{"errors":["bad address",null,"no drive"],"drive":"a"}], and the object
    it decodes to. *)
Definition envelope_body : list byte :=
  list_byte_of_string
    ("{" ++ Reference.q "errors" ++ ":[" ++ Reference.q "bad address" ++ ",null,"
         ++ Reference.q "no drive" ++ "]," ++ Reference.q "drive" ++ ":"
         ++ Reference.q "a" ++ "}").

Definition envelope_object : gmap string json :=
  <["errors" := JArray [JString "bad address"; JNull; JString "no drive"]]>
    {[ "drive" := JString "a" ]}.

(** The number a float holds, as a fraction with a positive denominator:
    the mantissa, signed, times the power of two; none for the infinities
    and for what is not a number. *)
Definition float_fraction (f : spec_float) : option (Z * Z) :=
  match f with
  | S754_zero _ => Some (0, 1)
  | S754_finite s m e =>
      let n := if s then Z.neg m else Z.pos m in
      Some (if 0 <=? e then (n * 2 ^ e, 1) else (n, 2 ^ (- e)))
  | S754_infinity _ | S754_nan => None
  end.

(** [z] is the fraction [num/den] without its fractional part: the integer
    on the side of zero with [|z| <= |num/den| < |z| + 1]. *)
Definition integer_part (num den z : Z) : Prop :=
  Z.abs z * den <= Z.abs num < (Z.abs z + 1) * den /\ 0 <= z * num.

(** The status codes the client takes for a success. *)
Definition success_status (code : Z) : Prop := 200 <= code < 300.

(** [upload] is the upload variant of [plain]: the same endpoint, the
    parameters of [plain] without [param] (the path on the device), sent by
    POST with [content] as the body where [plain] is sent by PUT without a
    body. *)
Definition upload_variant (param : string) (plain upload : M (result Response))
  (content : list byte) : Prop :=
  exists endpoint params,
    issued plain = [mkRequest MethodPut endpoint params None None] /\
    is_Some (params !! param) /\
    issued upload
    = [mkRequest MethodPost endpoint (delete param params) (Some content)
         (Some "application/octet-stream")].

(** A character a terminal prints: ASCII 0x20 to 0x7E. *)
Definition printable_char (c : ascii) : Prop := (32 <= N_of_ascii c <= 126)%N.

Definition newline_char : ascii := "010"%char.

(** The number of occurrences of a character in a string. *)
Fixpoint count_char (c : ascii) (s : string) : nat :=
  match s with
  | EmptyString => 0%nat
  | String x s' => ((if Ascii.eqb x c then 1 else 0) + count_char c s')%nat
  end.

(** A letter [A-Z] in lower case, any other character as it is. *)
Definition lower_ascii (c : ascii) : ascii :=
  let n := N_of_ascii c in
  if ((65 <=? n) && (n <=? 90))%N then ascii_of_N (n + 32) else c.

Fixpoint lower_string (s : string) : string :=
  match s with
  | EmptyString => EmptyString
  | String c s' => String (lower_ascii c) (lower_string s')
  end.

(** The characters [[0-9a-f]]. *)
Definition lower_hex_char (c : ascii) : Prop :=
  In c (list_ascii_of_string "0123456789abcdef").

(** The default port of a stream, as the command shows it. *)
Definition stream_port (stream : string) : string :=
  if String.eqb stream "video" then "11000"
  else if String.eqb stream "audio" then "11001"
  else "11002".

(** An address argument without its leading sign, if it has one. *)
Definition unsigned_part (address : string) : string :=
  match address with
  | String c rest => if Ascii.eqb c "+" || Ascii.eqb c "-" then rest else address
  | EmptyString => EmptyString
  end.

(** * Theorems *)

(** ** Strings *)

Lemma string_pair_ind (P : string -> Prop) :
  P "" ->
  (forall c, P (String c "")) ->
  (forall p q rest, P rest -> P (String p (String q rest))) ->
  forall s, P s.
Proof.
  intros H0 H1 H2.
  fix IH 1.
  intros [|p [|q rest]]; [exact H0 | apply H1 | apply H2, IH].
Qed.

Lemma string_app_assoc (a b c : string) : (a ++ b) ++ c = a ++ (b ++ c).
Proof. induction a as [|x a IH]; simpl; [reflexivity | now rewrite IH]. Qed.

Lemma string_app_nil_r (a : string) : a ++ "" = a.
Proof. induction a as [|x a IH]; simpl; [reflexivity | now rewrite IH]. Qed.

Lemma string_length_app (a b : string) :
  String.length (a ++ b) = (String.length a + String.length b)%nat.
Proof. induction a as [|x a IH]; simpl; [reflexivity | now rewrite IH]. Qed.

Lemma list_ascii_app (a b : string) :
  list_ascii_of_string (a ++ b) = (list_ascii_of_string a ++ list_ascii_of_string b)%list.
Proof. induction a as [|x a IH]; simpl; [reflexivity | now rewrite IH]. Qed.

(** ** [encoding/hex] *)

Lemma to_N_byte_of_ascii (a : ascii) : Byte.to_N (byte_of_ascii a) = N_of_ascii a.
Proof.
  rewrite <- (ascii_of_byte_of_ascii a) at 2.
  generalize (byte_of_ascii a). intros b. destruct b; reflexivity.
Qed.

Lemma to_N_byte_of_N (n : N) : (n < 256)%N -> Byte.to_N (byte_of_N n) = n.
Proof.
  intros Hn. unfold byte_of_N. rewrite to_N_byte_of_ascii.
  now apply N_ascii_embedding.
Qed.

Lemma fromHexChar_hex_char (c : ascii) :
  Spec.hex_char c <-> hex.fromHexChar c <> None.
Proof.
  unfold Spec.hex_char.
  destruct c as [[] [] [] [] [] [] [] []];
    (split;
     [ intros H Hn;
       first [ discriminate Hn
             | simpl in H; repeat (destruct H as [H|H]; [discriminate H|]); exact H ]
     | intros H;
       first [ exfalso; apply H; reflexivity
             | simpl; repeat (first [left; reflexivity | right]) ] ]).
Qed.

Lemma fromHexChar_None (c : ascii) :
  hex.fromHexChar c = None <-> ~ Spec.hex_char c.
Proof.
  rewrite fromHexChar_hex_char.
  destruct (hex.fromHexChar c); split; intros H; try congruence.
  exfalso. apply H. discriminate.
Qed.

Lemma fromHexChar_lt (c : ascii) (d : N) :
  hex.fromHexChar c = Some d -> (d < 16)%N.
Proof.
  unfold hex.fromHexChar.
  repeat match goal with
         | |- context [if ?b then _ else _] => destruct b eqn:?
         end; intros [= <-];
    repeat match goal with
           | H : (_ && _)%bool = true |- _ => apply andb_prop in H; destruct H
           | H : (_ <=? _)%N = true |- _ => apply N.leb_le in H
           end; lia.
Qed.

Lemma nibbles_value (a b : N) :
  (a < 16)%N -> (b < 16)%N -> N.lor (N.shiftl a 4) b = (16 * a + b)%N.
Proof.
  intros Ha Hb.
  assert (Ea : In a [0; 1; 2; 3; 4; 5; 6; 7; 8; 9; 10; 11; 12; 13; 14; 15]%N)
    by (simpl; lia).
  assert (Eb : In b [0; 1; 2; 3; 4; 5; 6; 7; 8; 9; 10; 11; 12; 13; 14; 15]%N)
    by (simpl; lia).
  simpl in Ea, Eb.
  repeat (destruct Ea as [<-|Ea]; [repeat (destruct Eb as [<-|Eb]; [reflexivity|]); easy|]).
  easy.
Qed.

Lemma even_length_pair (p q : ascii) (rest : string) :
  even_length (String p (String q rest)) <-> even_length rest.
Proof.
  unfold even_length. simpl String.length.
  replace (S (S (String.length rest))) with (String.length rest + 1 * 2)%nat by lia.
  now rewrite Nat.Div0.mod_add.
Qed.

Lemma Decode_no_length_error (s : string) :
  even_length s -> snd (hex.Decode s) <> Some hex.ErrLength.
Proof.
  induction s as [|c|p q rest IH] using string_pair_ind; intros He.
  - discriminate.
  - discriminate He.
  - apply even_length_pair in He. specialize (IH He). simpl.
    destruct (hex.fromHexChar p); [|discriminate].
    destruct (hex.fromHexChar q); [|discriminate].
    destruct (hex.Decode rest) as [dst err]. exact IH.
Qed.

Lemma Decode_all_hex (s : string) :
  even_length s -> Spec.all_hex s ->
  exists bs,
    hex.Decode s = (bs, None) /\
    length bs = (String.length s / 2)%nat /\
    forall acc,
      Spec.base16_from acc s
      = Some (fold_left (fun acc b => (256 * acc + Byte.to_N b)%N) bs acc).
Proof.
  induction s as [|c|p q rest IH] using string_pair_ind; intros He Hh.
  - exists []. repeat split.
  - discriminate He.
  - apply even_length_pair in He.
    unfold Spec.all_hex in Hh. simpl in Hh.
    apply Forall_cons_1 in Hh as [Hp Hh]. apply Forall_cons_1 in Hh as [Hq Hh].
    destruct (IH He Hh) as (bs & Hd & Hl & Hv).
    apply fromHexChar_hex_char in Hp, Hq.
    destruct (hex.fromHexChar p) as [a|] eqn:Ea; [|congruence].
    destruct (hex.fromHexChar q) as [b|] eqn:Eb; [|congruence].
    exists (byte_of_N (N.lor (N.shiftl a 4) b) :: bs).
    pose proof (fromHexChar_lt _ _ Ea). pose proof (fromHexChar_lt _ _ Eb).
    repeat split.
    + simpl. rewrite Ea, Eb, Hd. reflexivity.
    + simpl length. simpl String.length. rewrite Hl.
      replace (S (S (String.length rest))) with (String.length rest + 1 * 2)%nat by lia.
      rewrite Nat.div_add by lia. lia.
    + intros acc. simpl. rewrite Ea, Eb, Hv. do 2 f_equal.
      rewrite nibbles_value, to_N_byte_of_N by (try rewrite nibbles_value; lia). lia.
Qed.

Lemma Decode_invalid (s pre post : string) (c : ascii) :
  s = pre ++ String c post ->
  Spec.all_hex pre -> ~ Spec.hex_char c ->
  snd (hex.Decode s) = Some (hex.InvalidByteError c).
Proof.
  revert pre.
  induction s as [|x|p q rest IH] using string_pair_ind; intros pre Hs Hh Hc.
  - destruct pre; discriminate Hs.
  - apply fromHexChar_None in Hc.
    destruct pre as [|y [|z pre]]; simpl in Hs.
    + injection Hs as <- _. simpl. now rewrite Hc.
    + discriminate Hs.
    + discriminate Hs.
  - destruct pre as [|y [|z pre]]; simpl in Hs.
    + injection Hs as <- _. apply fromHexChar_None in Hc. simpl. now rewrite Hc.
    + injection Hs as <- <- _.
      apply Forall_cons_1 in Hh as [Hy _]. apply fromHexChar_hex_char in Hy.
      apply fromHexChar_None in Hc. simpl.
      destruct (hex.fromHexChar p); [|congruence]. now rewrite Hc.
    + injection Hs as <- <- Hr.
      unfold Spec.all_hex in Hh. simpl in Hh.
      apply Forall_cons_1 in Hh as [Hy Hh]. apply Forall_cons_1 in Hh as [Hz Hh].
      apply fromHexChar_hex_char in Hy, Hz. simpl.
      destruct (hex.fromHexChar p); [|congruence].
      destruct (hex.fromHexChar q); [|congruence].
      specialize (IH pre Hr Hh Hc).
      destruct (hex.Decode rest) as [dst err]. exact IH.
Qed.

(** ** [hexToBytes] *)

Lemma even_length_padded (body : string) : even_length (padded body).
Proof.
  unfold padded, even_length.
  destruct (String.length body mod 2 =? 0)%nat eqn:E.
  - now apply Nat.eqb_eq in E.
  - apply Nat.eqb_neq in E. simpl String.length.
    pose proof (Nat.mod_upper_bound (String.length body) 2 ltac:(lia)).
    replace (S (String.length body)) with (1 + String.length body)%nat by lia.
    rewrite <- Nat.Div0.add_mod_idemp_r.
    replace (String.length body mod 2)%nat with 1%nat by lia. reflexivity.
Qed.

Lemma string_take_drop (n : nat) (s : string) : string_take n s ++ string_drop n s = s.
Proof.
  revert s. induction n as [|n IH]; intros [|c s]; simpl; try reflexivity.
  now rewrite IH.
Qed.

Lemma string_drop_length (n : nat) (s : string) :
  String.length (string_drop n s) = (String.length s - n)%nat.
Proof.
  revert s. induction n as [|n IH]; intros [|c s]; simpl; try reflexivity.
  apply IH.
Qed.

Lemma hexToBytes_stripped (s body : string) :
  Spec.stripped s body -> hexToBytes s = hex.Decode (padded body).
Proof.
  intros [b Hb|t Ht]; unfold hexToBytes, hex.DecodeString, padded.
  - replace ((2 <? String.length ("0x" ++ b))%nat) with true.
    2:{ symmetry. apply Nat.ltb_lt. destruct b; [congruence | simpl; lia]. }
    cbn [andb string_take string_drop String.append String.eqb Ascii.eqb Bool.eqb].
    destruct (String.length b mod 2 =? 0)%nat; reflexivity.
  - destruct ((2 <? String.length t)%nat && String.eqb (string_take 2 t) "0x") eqn:E.
    + exfalso. apply andb_prop in E as [El Ep].
      apply Nat.ltb_lt in El. apply String.eqb_eq in Ep.
      apply (Ht (string_drop 2 t)).
      * intros Hd. pose proof (string_drop_length 2 t) as Hl. rewrite Hd in Hl.
        simpl in Hl. lia.
      * rewrite <- Ep. symmetry. apply string_take_drop.
    + destruct (String.length t mod 2 =? 0)%nat; reflexivity.
Qed.

Lemma all_hex_padded (body : string) : Spec.all_hex body -> Spec.all_hex (padded body).
Proof.
  unfold padded. destruct (String.length body mod 2 =? 0)%nat; [easy|].
  intros H. constructor; [|exact H].
  unfold Spec.hex_char. simpl. tauto.
Qed.

Lemma base16_padded (body : string) : Spec.base16 (padded body) = Spec.base16 body.
Proof.
  unfold padded. destruct (String.length body mod 2 =? 0)%nat; reflexivity.
Qed.

Lemma padded_length (body : string) :
  (String.length (padded body) / 2 = (String.length body + 1) / 2)%nat.
Proof.
  unfold padded. destruct (String.length body mod 2 =? 0)%nat eqn:E; simpl String.length.
  - apply Nat.eqb_eq in E.
    pose proof (Nat.div_mod_eq (String.length body) 2).
    pose proof (Nat.div_mod_eq (String.length body + 1) 2).
    pose proof (Nat.mod_upper_bound (String.length body + 1) 2 ltac:(lia)). lia.
  - f_equal. lia.
Qed.

Lemma base16_from_Some (s : string) (acc v : N) :
  Spec.base16_from acc s = Some v -> Spec.all_hex s.
Proof.
  revert acc. induction s as [|x s IH]; intros acc H; [constructor|].
  simpl in H. destruct (hex.fromHexChar x) eqn:E; [|discriminate H].
  constructor; [apply fromHexChar_hex_char; congruence | eapply IH, H].
Qed.

Lemma base16_from_None (s : string) (acc : N) :
  Spec.base16_from acc s = None ->
  exists pre c post, s = pre ++ String c post /\ Spec.all_hex pre /\ ~ Spec.hex_char c.
Proof.
  revert acc. induction s as [|x s IH]; intros acc H; [discriminate H|].
  simpl in H. destruct (hex.fromHexChar x) as [d|] eqn:E.
  - destruct (IH _ H) as (pre & c & post & -> & Hp & Hc).
    exists (String x pre), c, post. repeat split; [|exact Hc].
    constructor; [|exact Hp]. apply fromHexChar_hex_char. congruence.
  - exists "", x, s. repeat split; [constructor|]. now apply fromHexChar_None.
Qed.

(** C2 (as stated) fails on the code. The odd-length string [abc] is not
    refused with a length error: it is padded to [0abc] and decodes to two
    bytes. The string [0x12] contains the character [x], which is outside
    [[0-9a-fA-F]], and decodes as well, since the prefix is removed first. *)
Lemma hexToBytes_odd_length_decodes :
  Nat.odd (String.length "abc") = true /\
  hexToBytes "abc" = ([x0a; xbc], None) /\
  ~ Spec.hex_char "x" /\
  hexToBytes "0x12" = ([x12], None).
Proof.
  repeat split.
  intros H. simpl in H. repeat (destruct H as [H|H]; [discriminate H|]). exact H.
Qed.

(** C2 (amended): [hexToBytes] never fails with a length error. With [body]
    the input after an optional [0x] prefix, a body of hexadecimal digits
    only decodes without error, whatever its length (an odd length is
    padded with a leading zero), and a body with a character outside
    [[0-9a-fA-F]] fails with the invalid-byte error of the first such
    character. *)
Theorem hexToBytes_errors (s body : string) :
  Spec.stripped s body ->
  snd (hexToBytes s) <> Some hex.ErrLength /\
  (Spec.all_hex body ->
   snd (hexToBytes s) = None /\
   length (fst (hexToBytes s)) = ((String.length body + 1) / 2)%nat) /\
  (forall pre c post,
      body = pre ++ String c post ->
      Spec.all_hex pre -> ~ Spec.hex_char c ->
      snd (hexToBytes s) = Some (hex.InvalidByteError c)).
Proof.
  intros Hs. rewrite (hexToBytes_stripped _ _ Hs).
  split; [|split].
  - apply Decode_no_length_error, even_length_padded.
  - intros Hh.
    destruct (Decode_all_hex (padded body) (even_length_padded body)
                (all_hex_padded body Hh)) as (bs & -> & Hl & _).
    simpl. now rewrite Hl, padded_length.
  - intros pre c post -> Hp Hc. unfold padded.
    destruct (String.length (pre ++ String c post) mod 2 =? 0)%nat.
    + now apply (Decode_invalid _ pre post c).
    + apply (Decode_invalid _ (String "0" pre) post c); [reflexivity| |exact Hc].
      constructor; [|exact Hp]. unfold Spec.hex_char. simpl. tauto.
Qed.

Lemma hexToBytes_errors_witness :
  snd (hexToBytes "0x0g1") <> Some hex.ErrLength /\
  (Spec.all_hex "0g1" ->
   snd (hexToBytes "0x0g1") = None /\
   length (fst (hexToBytes "0x0g1")) = ((String.length "0g1" + 1) / 2)%nat) /\
  (forall pre c post,
      "0g1" = pre ++ String c post ->
      Spec.all_hex pre -> ~ Spec.hex_char c ->
      snd (hexToBytes "0x0g1") = Some (hex.InvalidByteError c)).
Proof.
  apply (hexToBytes_errors "0x0g1" "0g1").
  apply (Spec.stripped_prefix "0g1"). discriminate.
Defined.

(** C3 (as stated) fails on the code: a [$] prefix is not removed, so
    [$0400] is refused with the invalid byte [$]. *)
Lemma hexToBytes_dollar_prefix_fails :
  hexToBytes "$0400" = ([], Some (hex.InvalidByteError "$")).
Proof. reflexivity. Qed.

(** C3 (amended): [hexToBytes] removes an optional [0x] prefix (no other
    prefix), pads an odd length with a leading zero and reads the rest in
    base 16, most significant byte first; it fails with an invalid-byte
    error when a character outside [[0-9a-fA-F]] remains. So [400], [0400]
    and [0x0400] all give the bytes 04 00, that is 0x0400, and [$0400]
    fails with the invalid byte [$]. *)
Theorem hexToBytes_address (s body : string) :
  Spec.stripped s body ->
  (forall v, Spec.base16 body = Some v ->
             exists bs, hexToBytes s = (bs, None) /\
                        Spec.big_endian bs = v /\
                        length bs = ((String.length body + 1) / 2)%nat) /\
  (Spec.base16 body = None ->
   exists c, ~ Spec.hex_char c /\
             snd (hexToBytes s) = Some (hex.InvalidByteError c)) /\
  hexToBytes "400" = ([x04; x00], None) /\
  hexToBytes "0400" = ([x04; x00], None) /\
  hexToBytes "0x0400" = ([x04; x00], None) /\
  Spec.big_endian [x04; x00] = 0x0400%N /\
  hexToBytes "$0400" = ([], Some (hex.InvalidByteError "$")).
Proof.
  intros Hs. rewrite (hexToBytes_stripped _ _ Hs).
  split; [|split; [|repeat split]].
  - intros v Hv.
    pose proof (base16_from_Some _ _ _ Hv) as Hh.
    destruct (Decode_all_hex (padded body) (even_length_padded body)
                (all_hex_padded body Hh)) as (bs & Hd & Hl & Hb).
    exists bs. repeat split; [exact Hd| |now rewrite Hl, padded_length].
    specialize (Hb 0%N). fold (Spec.base16 (padded body)) in Hb.
    rewrite base16_padded, Hv in Hb. unfold Spec.big_endian. congruence.
  - intros Hn. destruct (base16_from_None _ _ Hn) as (pre & c & post & -> & Hp & Hc).
    exists c. split; [exact Hc|]. unfold padded.
    destruct (String.length (pre ++ String c post) mod 2 =? 0)%nat.
    + now apply (Decode_invalid _ pre post c).
    + apply (Decode_invalid _ (String "0" pre) post c); [reflexivity| |exact Hc].
      constructor; [|exact Hp]. unfold Spec.hex_char. simpl. tauto.
Qed.

Lemma hexToBytes_address_witness :
  (forall v, Spec.base16 "0400" = Some v ->
             exists bs, hexToBytes "0x0400" = (bs, None) /\
                        Spec.big_endian bs = v /\
                        length bs = ((String.length "0400" + 1) / 2)%nat) /\
  (Spec.base16 "0400" = None ->
   exists c, ~ Spec.hex_char c /\
             snd (hexToBytes "0x0400") = Some (hex.InvalidByteError c)) /\
  hexToBytes "400" = ([x04; x00], None) /\
  hexToBytes "0400" = ([x04; x00], None) /\
  hexToBytes "0x0400" = ([x04; x00], None) /\
  Spec.big_endian [x04; x00] = 0x0400%N /\
  hexToBytes "$0400" = ([], Some (hex.InvalidByteError "$")).
Proof.
  apply (hexToBytes_address "0x0400" "0400").
  apply (Spec.stripped_prefix "0400"). discriminate.
Defined.

(** ** [fmt]: hexadecimal digits *)

Lemma udigit_spec (d : N) :
  (d < 16)%N ->
  Spec.upper_hex_char (fmt.digit fmt.udigits d) /\
  hex.fromHexChar (fmt.digit fmt.udigits d) = Some d.
Proof.
  intros Hd.
  assert (Ed : In d [0; 1; 2; 3; 4; 5; 6; 7; 8; 9; 10; 11; 12; 13; 14; 15]%N)
    by (simpl; lia).
  simpl in Ed. unfold Spec.upper_hex_char.
  repeat (destruct Ed as [<-|Ed]; [split; [simpl; tauto | reflexivity]|]).
  easy.
Qed.

Lemma hex_numeral_digit (u : N) :
  (u < 16)%N -> hex_numeral (String (fmt.digit fmt.udigits u) "") u.
Proof.
  intros Hlt. destruct (udigit_spec u Hlt) as [Hup Hval].
  unfold hex_numeral. simpl String.length.
  split; [lia|]. split; [simpl; lia|]. split; [now left|].
  split; [|split].
  - constructor; [|constructor]. apply fromHexChar_hex_char. congruence.
  - constructor; [exact Hup | constructor].
  - intros acc rest. simpl. rewrite Hval. f_equal. lia.
Qed.

(** The digit loop writes the hexadecimal numeral of [u] in front of the
    buffer. *)
Lemma digits_loop_hex (fuel : nat) (u : N) (buf : string) :
  (u < 16 ^ N.of_nat (S fuel))%N ->
  exists ds,
    fmt.digits_loop (S fuel) 16 fmt.udigits u buf = ds ++ buf /\ hex_numeral ds u.
Proof.
  revert u buf. induction fuel as [|fuel IH]; intros u buf Hu.
  - assert (Hlt : (u < 16)%N) by (simpl in Hu; lia).
    exists (String (fmt.digit fmt.udigits u) "").
    split; [|now apply hex_numeral_digit].
    simpl fmt.digits_loop.
    now replace (16 <=? u)%N with false by (symmetry; apply N.leb_gt; lia).
  - change (fmt.digits_loop (S (S fuel)) 16 fmt.udigits u buf)
      with (if (16 <=? u)%N
            then fmt.digits_loop (S fuel) 16 fmt.udigits (u / 16)%N
                   (String (fmt.digit fmt.udigits (u mod 16)%N) buf)
            else String (fmt.digit fmt.udigits u) buf).
    destruct (16 <=? u)%N eqn:E.
    + apply N.leb_le in E.
      assert (Hq : (u / 16 < 16 ^ N.of_nat (S fuel))%N).
      { apply N.Div0.div_lt_upper_bound.
        rewrite <- N.pow_succ_r', <- Nat2N.inj_succ. exact Hu. }
      destruct (IH (u / 16)%N (String (fmt.digit fmt.udigits (u mod 16)%N) buf) Hq)
        as (ds & Hr & Hl & Hub & Hlb & Hh & Hup & Hb).
      assert (Hm : (u mod 16 < 16)%N) by (apply N.mod_lt; lia).
      destruct (udigit_spec _ Hm) as [Hdu Hdv].
      pose proof (N.div_mod u 16 ltac:(lia)) as Hdm.
      exists (ds ++ String (fmt.digit fmt.udigits (u mod 16)%N) "").
      split; [rewrite Hr, string_app_assoc; reflexivity|].
      unfold hex_numeral.
      rewrite string_length_app. simpl String.length.
      replace (String.length ds + 1)%nat with (S (String.length ds)) by lia.
      rewrite Nat2N.inj_succ, N.pow_succ_r'.
      split; [lia|]. split; [lia|]. split; [|split; [|split]].
      * right. pose proof (N.Div0.mul_div_le u 16).
        destruct Hlb as [Hone|Hlb]; [|lia].
        rewrite Hone. change (N.of_nat 1) with 1%N. rewrite N.pow_1_r. lia.
      * unfold Spec.all_hex. rewrite list_ascii_app. apply Forall_app. split; [exact Hh|].
        constructor; [|constructor]. apply fromHexChar_hex_char. congruence.
      * rewrite list_ascii_app. apply Forall_app. split; [exact Hup|].
        constructor; [exact Hdu | constructor].
      * intros acc rest. rewrite string_app_assoc, Hb. simpl. rewrite Hdv. f_equal. lia.
    + apply N.leb_gt in E.
      exists (String (fmt.digit fmt.udigits u) "").
      split; [reflexivity | now apply hex_numeral_digit].
Qed.

Lemma zeros_length (k : nat) : String.length (fmt.zeros k) = k.
Proof. induction k as [|k IH]; simpl; [reflexivity | now rewrite IH]. Qed.

Lemma zeros_upper (k : nat) :
  Forall Spec.upper_hex_char (list_ascii_of_string (fmt.zeros k)).
Proof.
  induction k as [|k IH]; simpl; constructor; [|exact IH].
  unfold Spec.upper_hex_char. simpl. tauto.
Qed.

Lemma zeros_base16 (k : nat) (s : string) :
  Spec.base16 (fmt.zeros k ++ s) = Spec.base16 s.
Proof. induction k as [|k IH]; simpl; [reflexivity | exact IH]. Qed.

(** A numeral padded with zeros to [wid] characters: still upper-case digits
    that write [u]; exactly [wid] of them when [u] fits, more when not. *)
Lemma pad_zeros_numeral (wid : nat) (ds : string) (u : N) :
  hex_numeral ds u ->
  Spec.base16 (fmt.pad_zeros wid ds) = Some u /\
  Forall Spec.upper_hex_char (list_ascii_of_string (fmt.pad_zeros wid ds)) /\
  ((1 <= wid)%nat -> (u < 16 ^ N.of_nat wid)%N ->
   String.length (fmt.pad_zeros wid ds) = wid) /\
  ((16 ^ N.of_nat wid <= u)%N -> (wid < String.length (fmt.pad_zeros wid ds))%nat).
Proof.
  intros (Hl & Hub & Hlb & _ & Hup & Hb). unfold fmt.pad_zeros.
  split; [|split; [|split]].
  - rewrite zeros_base16. unfold Spec.base16.
    rewrite <- (string_app_nil_r ds) at 1. rewrite Hb. simpl. f_equal; lia.
  - rewrite list_ascii_app. apply Forall_app. split; [apply zeros_upper | exact Hup].
  - intros Hw Hu. rewrite string_length_app, zeros_length.
    enough (String.length ds <= wid)%nat by lia.
    destruct Hlb as [->|Hlb]; [lia|].
    assert (Hp : (16 ^ N.of_nat (String.length ds) < 16 ^ N.of_nat (S wid))%N).
    { rewrite Nat2N.inj_succ, N.pow_succ_r'. lia. }
    apply N.pow_lt_mono_r_iff in Hp; lia.
  - intros Hu. rewrite string_length_app, zeros_length.
    enough (wid < String.length ds)%nat by lia.
    assert (Hp : (16 ^ N.of_nat wid < 16 ^ N.of_nat (String.length ds))%N) by lia.
    apply N.pow_lt_mono_r_iff in Hp; lia.
Qed.

(** [%04X] of a non-negative [int]: upper-case hexadecimal digits that
    write it; four of them up to 0xFFFF, more beyond. *)
Lemma Sprintf_04X_address (n : Z) :
  0 <= n <= GoInt.max_int ->
  Spec.base16 (fmt.Sprintf_04X n) = Some (Z.to_N n) /\
  Forall Spec.upper_hex_char (list_ascii_of_string (fmt.Sprintf_04X n)) /\
  (n <= 0xFFFF -> String.length (fmt.Sprintf_04X n) = 4%nat) /\
  (0xFFFF < n -> (4 < String.length (fmt.Sprintf_04X n))%nat).
Proof.
  intros Hn.
  destruct (digits_loop_hex 63 (Z.to_N n) "") as (ds & Hd & Hnum).
  { unfold GoInt.max_int in Hn.
    apply N.lt_le_trans with (2 ^ 63)%N; [lia|]. now vm_compute. }
  rewrite string_app_nil_r in Hd.
  unfold fmt.Sprintf_04X, fmt.Sprintf_0X, fmt.digits.
  replace (n <? 0) with false by (symmetry; apply Z.ltb_ge; lia).
  replace (Z.abs_N n) with (Z.to_N n) by lia.
  rewrite Hd.
  destruct (pad_zeros_numeral 4 ds (Z.to_N n) Hnum) as (Hv & Hup & Hfit & Hwide).
  change (16 ^ N.of_nat 4)%N with 65536%N in Hfit, Hwide.
  repeat split; [exact Hv | exact Hup | intros; apply Hfit; lia | intros; apply Hwide; lia].
Qed.

(** [%02X] of a byte: two upper-case hexadecimal digits that write it. *)
Lemma Sprintf_02X_byte (b : byte) :
  Spec.base16 (fmt.Sprintf_02X b) = Some (Byte.to_N b) /\
  Forall Spec.upper_hex_char (list_ascii_of_string (fmt.Sprintf_02X b)) /\
  String.length (fmt.Sprintf_02X b) = 2%nat.
Proof.
  pose proof (Byte.to_N_bounded b) as Hb.
  destruct (digits_loop_hex 63 (Byte.to_N b) "") as (ds & Hd & Hnum).
  { apply N.lt_le_trans with 256%N; [lia|]. now vm_compute. }
  rewrite string_app_nil_r in Hd.
  unfold fmt.Sprintf_02X, fmt.digits. rewrite Hd.
  destruct (pad_zeros_numeral 2 ds (Byte.to_N b) Hnum) as (Hv & Hup & Hfit & _).
  change (16 ^ N.of_nat 2)%N with 256%N in Hfit.
  repeat split; [exact Hv | exact Hup | apply Hfit; lia].
Qed.

(** ** [FormatMemoryDump] *)

Lemma join_app (l1 l2 : list string) :
  Spec.join (l1 ++ l2) = Spec.join l1 ++ Spec.join l2.
Proof.
  induction l1 as [|x l1 IH]; simpl; [reflexivity|].
  now rewrite IH, string_app_assoc.
Qed.

Lemma hex_columns_spec (data : list byte) (i : nat) (buf : string) :
  hex_columns data i buf
  = buf ++ Spec.join (map (fun j => Spec.cell data (i + j) j) (seq 0 16)).
Proof.
  unfold hex_columns. generalize (seq 0 16). intros l. revert buf.
  induction l as [|j l IH]; intros buf; simpl.
  - now rewrite string_app_nil_r.
  - rewrite IH. unfold Spec.cell.
    destruct (i + j <? length data)%nat, (j =? 7)%nat;
      now rewrite ?string_app_assoc, ?string_app_nil_r.
Qed.

Lemma skipn_index (data : list byte) (k : nat) :
  (k < length data)%nat -> skipn k data = index data k :: skipn (S k) data.
Proof.
  revert k. induction data as [|b data IH]; intros k Hk; [simpl in Hk; lia|].
  destruct k as [|k]; [reflexivity|].
  simpl in Hk. change (skipn (S k) (b :: data)) with (skipn k data).
  rewrite IH by lia. reflexivity.
Qed.

Lemma ascii_columns_spec (data : list byte) (i fuel j : nat) (buf : string) :
  (16 <= fuel + j)%nat ->
  ascii_columns fuel data i j buf
  = buf ++ string_of_list_ascii
             (map Spec.printable (firstn (16 - j) (skipn (i + j) data))).
Proof.
  revert j buf. induction fuel as [|fuel IH]; intros j buf Hf.
  - replace (16 - j)%nat with 0%nat by lia. simpl. now rewrite string_app_nil_r.
  - simpl ascii_columns.
    destruct (j <? 16)%nat eqn:Ej; simpl andb.
    + destruct (i + j <? length data)%nat eqn:Eb.
      * apply Nat.ltb_lt in Ej, Eb.
        rewrite (skipn_index data (i + j) Eb).
        replace (16 - j)%nat with (S (16 - S j)) by lia.
        replace (S (i + j))%nat with (i + S j)%nat by lia.
        simpl firstn. simpl map. simpl string_of_list_ascii.
        replace (if ((32 <=? Byte.to_N (index data (i + j)))
                     && (Byte.to_N (index data (i + j)) <=? 126))%N
                 then buf ++ String (ascii_of_byte (index data (i + j))) ""
                 else buf ++ ".")
          with (buf ++ String (Spec.printable (index data (i + j))) "")
          by (unfold Spec.printable; now destruct (_ && _)%bool).
        rewrite IH by lia. now rewrite string_app_assoc.
      * apply Nat.ltb_ge in Eb. rewrite skipn_all2 by lia.
        rewrite firstn_nil. simpl. now rewrite string_app_nil_r.
    + apply Nat.ltb_ge in Ej. replace (16 - j)%nat with 0%nat by lia.
      simpl. now rewrite string_app_nil_r.
Qed.

Lemma row_count_bounds (n : nat) :
  (16 * ((n + 15) / 16) <= n + 15 < 16 * ((n + 15) / 16) + 16)%nat.
Proof.
  pose proof (Nat.div_mod_eq (n + 15) 16).
  pose proof (Nat.mod_upper_bound (n + 15) 16 ltac:(lia)). lia.
Qed.

(** One round of the row loop appends the row of the specification. *)
Lemma dump_row_step (data : list byte) (startAddr : Z) (i : nat) (buf : string) :
  ascii_columns 16 data i 0
    (hex_columns data i (buf ++ fmt.Sprintf_04X (GoInt.add startAddr (Z.of_nat i)) ++ ": ")
       ++ " |") ++ "|" ++ String "010" ""
  = buf ++ Spec.row data startAddr i.
Proof.
  rewrite ascii_columns_spec by lia. rewrite hex_columns_spec.
  unfold Spec.row, Spec.newline.
  replace (i + 0)%nat with i by lia. replace (16 - 0)%nat with 16%nat by lia.
  now rewrite !string_app_assoc.
Qed.

Lemma dump_rows_spec (data : list byte) (startAddr : Z) (fuel k : nat) (buf : string) :
  ((length data + 15) / 16 - k <= fuel)%nat ->
  dump_rows fuel data startAddr (16 * k) buf
  = buf ++ Spec.join
             (map (Spec.row data startAddr)
                (map (fun k => (16 * k)%nat) (seq k ((length data + 15) / 16 - k)))).
Proof.
  pose proof (row_count_bounds (length data)) as HR.
  revert k buf. induction fuel as [|fuel IH]; intros k buf Hf.
  - replace ((length data + 15) / 16 - k)%nat with 0%nat by lia.
    simpl. now rewrite string_app_nil_r.
  - cbn [dump_rows].
    destruct (16 * k <? length data)%nat eqn:E.
    + apply Nat.ltb_lt in E.
      assert (Hk : (k < (length data + 15) / 16)%nat) by lia.
      replace ((length data + 15) / 16 - k)%nat
        with (S ((length data + 15) / 16 - S k)) by lia.
      replace (16 * k + 16)%nat with (16 * S k)%nat by lia.
      rewrite dump_row_step, IH by lia.
      cbn [seq map Spec.join fold_right].
      now rewrite string_app_assoc.
    + apply Nat.ltb_ge in E.
      replace ((length data + 15) / 16 - k)%nat with 0%nat by lia.
      simpl. now rewrite string_app_nil_r.
Qed.

(** The dump is the rows of the specification, one after the other. *)
Lemma FormatMemoryDump_rows (data : list byte) (startAddr : Z) :
  FormatMemoryDump data startAddr = Spec.format_dump data startAddr.
Proof.
  unfold FormatMemoryDump, Spec.format_dump, Spec.row_offsets.
  pose proof (row_count_bounds (length data)).
  change 0%nat with (16 * 0)%nat at 1.
  rewrite (dump_rows_spec data startAddr (length data) 0 "") by lia.
  now rewrite Nat.sub_0_r.
Qed.

(** In range, Go's addition is the addition of integers. *)
Lemma GoInt_add_exact (a b : Z) :
  GoInt.min_int <= a + b <= GoInt.max_int -> GoInt.add a b = a + b.
Proof.
  unfold GoInt.add, GoInt.wrap, GoInt.min_int, GoInt.max_int. intros H.
  rewrite Z.mod_small; lia.
Qed.

(** *** Fields of hexadecimal digits *)

Lemma upper_digit_spec (d : N) :
  (d < 16)%N ->
  Spec.upper_hex_char (DumpSpec.upper_digit d) /\
  hex.fromHexChar (DumpSpec.upper_digit d) = Some d.
Proof.
  intros Hd. rewrite <- (N2Nat.id d).
  assert (Hk : (N.to_nat d < 16)%nat) by lia.
  revert Hk. generalize (N.to_nat d). intros k Hk.
  do 16 (destruct k as [|k];
         [split; [unfold Spec.upper_hex_char; simpl; tauto | reflexivity]|]).
  lia.
Qed.

Lemma hex_length (w : nat) (n : N) : String.length (DumpSpec.hex w n) = w.
Proof.
  revert n. induction w as [|w IH]; intros n; [reflexivity|].
  cbn [DumpSpec.hex]. rewrite string_length_app, IH. simpl. lia.
Qed.

Lemma hex_upper (w : nat) (n : N) :
  Forall Spec.upper_hex_char (list_ascii_of_string (DumpSpec.hex w n)).
Proof.
  revert n. induction w as [|w IH]; intros n; [constructor|].
  cbn [DumpSpec.hex]. rewrite list_ascii_app. apply Forall_app. split; [apply IH|].
  constructor; [|constructor].
  apply upper_digit_spec. apply N.mod_lt. discriminate.
Qed.

(** The digits of [hex w n] write [n] modulo [16^w]. *)
Lemma hex_value (w : nat) (n acc : N) (rest : string) :
  Spec.base16_from acc (DumpSpec.hex w n ++ rest)
  = Spec.base16_from (acc * 16 ^ N.of_nat w + n mod 16 ^ N.of_nat w) rest.
Proof.
  revert n acc rest. induction w as [|w IH]; intros n acc rest.
  - simpl. rewrite N.mod_1_r. f_equal. lia.
  - cbn [DumpSpec.hex]. rewrite string_app_assoc, IH.
    cbn [String.append Spec.base16_from].
    destruct (upper_digit_spec (n mod 16)) as [_ ->];
      [apply N.mod_lt; discriminate|].
    f_equal.
    rewrite Nat2N.inj_succ, N.pow_succ_r'.
    rewrite (N.Div0.mod_mul_r n 16 (16 ^ N.of_nat w)). lia.
Qed.

Lemma upper_hex_char_inj (c1 c2 : ascii) :
  Spec.upper_hex_char c1 -> Spec.upper_hex_char c2 ->
  hex.fromHexChar c1 = hex.fromHexChar c2 -> c1 = c2.
Proof.
  unfold Spec.upper_hex_char. simpl. intros H1 H2.
  repeat (destruct H1 as [<-|H1]);
    try (destruct H1);
    repeat (destruct H2 as [<-|H2]);
    try (destruct H2);
    intros E; first [reflexivity | discriminate E].
Qed.

(** Two fields of upper-case digits of the same width that write the same
    number are the same field. *)
Lemma upper_field_unique (s1 s2 : string) (a1 a2 v : N) :
  String.length s1 = String.length s2 ->
  Forall Spec.upper_hex_char (list_ascii_of_string s1) ->
  Forall Spec.upper_hex_char (list_ascii_of_string s2) ->
  Spec.base16_from a1 s1 = Some v ->
  Spec.base16_from a2 s2 = Some v ->
  a1 = a2 /\ s1 = s2.
Proof.
  revert s2 a1 a2.
  induction s1 as [|c1 s1 IH]; intros [|c2 s2] a1 a2 Hl U1 U2 B1 B2;
    try discriminate Hl.
  - simpl in B1, B2. split; [congruence | reflexivity].
  - simpl in Hl, U1, U2, B1, B2.
    apply Forall_cons_1 in U1 as [Uc1 U1]. apply Forall_cons_1 in U2 as [Uc2 U2].
    destruct (hex.fromHexChar c1) as [d1|] eqn:E1; [|discriminate B1].
    destruct (hex.fromHexChar c2) as [d2|] eqn:E2; [|discriminate B2].
    pose proof (fromHexChar_lt _ _ E1). pose proof (fromHexChar_lt _ _ E2).
    destruct (IH s2 _ _ (eq_add_S _ _ Hl) U1 U2 B1 B2) as [Ha ->].
    assert (a1 = a2 /\ d1 = d2) as [-> ->] by lia.
    split; [reflexivity|]. f_equal.
    apply upper_hex_char_inj; [assumption..|congruence].
Qed.

(** [%04X] of a 16-bit address and [%02X] of a byte are the fields of four
    and of two digits. *)
Lemma Sprintf_04X_hex (n : Z) :
  0 <= n <= 0xFFFF -> fmt.Sprintf_04X n = DumpSpec.hex 4 (Z.to_N n).
Proof.
  intros Hn.
  destruct (Sprintf_04X_address n) as (Hv & Hup & Hlen & _);
    [unfold GoInt.max_int; lia|].
  apply (upper_field_unique _ _ 0%N 0%N (Z.to_N n)).
  - rewrite hex_length. apply Hlen. lia.
  - exact Hup.
  - apply hex_upper.
  - exact Hv.
  - rewrite <- (string_app_nil_r (DumpSpec.hex 4 (Z.to_N n))), hex_value.
    simpl Spec.base16_from. f_equal.
    change (16 ^ N.of_nat 4)%N with 65536%N. rewrite N.mod_small; lia.
Qed.

Lemma Sprintf_02X_hex (b : byte) :
  fmt.Sprintf_02X b = DumpSpec.hex 2 (Byte.to_N b).
Proof.
  pose proof (Byte.to_N_bounded b) as Hb.
  destruct (Sprintf_02X_byte b) as (Hv & Hup & Hlen).
  apply (upper_field_unique _ _ 0%N 0%N (Byte.to_N b)).
  - now rewrite hex_length.
  - exact Hup.
  - apply hex_upper.
  - exact Hv.
  - rewrite <- (string_app_nil_r (DumpSpec.hex 2 (Byte.to_N b))), hex_value.
    simpl Spec.base16_from. f_equal.
    change (16 ^ N.of_nat 2)%N with 256%N. rewrite N.mod_small; lia.
Qed.

Lemma cell_hex (data : list byte) (k j : nat) :
  Spec.cell data k j = DumpSpec.cell data k j.
Proof.
  unfold Spec.cell, DumpSpec.cell, index.
  destruct (k <? length data)%nat eqn:E.
  - apply Nat.ltb_lt in E.
    rewrite (nth_error_nth' data x00 E), Sprintf_02X_hex. reflexivity.
  - apply Nat.ltb_ge in E. apply nth_error_None in E. now rewrite E.
Qed.

Lemma row_hex (data : list byte) (start : Z) (i : nat) :
  0 <= start -> start + Z.of_nat i <= 0xFFFF ->
  Spec.row data start i = DumpSpec.row data start i.
Proof.
  intros H0 H1. unfold Spec.row, DumpSpec.row.
  rewrite GoInt_add_exact by (unfold GoInt.min_int, GoInt.max_int; lia).
  rewrite Sprintf_04X_hex by lia.
  rewrite (map_ext (fun j => Spec.cell data (i + j) j)
             (fun j => DumpSpec.cell data (i + j) j))
    by (intros j; apply cell_hex).
  reflexivity.
Qed.

(** C4 (as stated) fails on the code: the address field is [%04X] of an
    [int], a minimum width and a signed number. The dump of one byte at
    the start address -16 begins with [-010], and the dump of one byte at
    0x10000 with the five digits [10000]; neither begins with four
    upper-case hexadecimal digits followed by [: ]. *)
Lemma FormatMemoryDump_address_field :
  FormatMemoryDump [x41] (-16)
  = "-010: 41 " ++ "                     " ++ " " ++ "                        "
      ++ " |A|" ++ Spec.newline /\
  FormatMemoryDump [x42] 0x10000
  = "10000: 42 " ++ "                     " ++ " " ++ "                        "
      ++ " |B|" ++ Spec.newline /\
  forall ds tail,
    String.length ds = 4%nat ->
    Forall Spec.upper_hex_char (list_ascii_of_string ds) ->
    FormatMemoryDump [x41] (-16) <> ds ++ ": " ++ tail /\
    FormatMemoryDump [x42] 0x10000 <> ds ++ ": " ++ tail.
Proof.
  split; [reflexivity|]. split; [reflexivity|].
  intros ds tail Hl Hup.
  destruct ds as [|c1 [|c2 [|c3 [|c4 [|c5 ds]]]]]; try discriminate Hl.
  split.
  - change (FormatMemoryDump [x41] (-16))
      with ("-010: 41 " ++ "                     " ++ " "
              ++ "                        " ++ " |A|" ++ Spec.newline).
    simpl. intros [= <- _]. apply Forall_cons_1 in Hup as [Hc _].
    unfold Spec.upper_hex_char in Hc. simpl in Hc.
    repeat (destruct Hc as [Hc|Hc]; [discriminate Hc|]). exact Hc.
  - change (FormatMemoryDump [x42] 0x10000)
      with ("10000: 42 " ++ "                     " ++ " "
              ++ "                        " ++ " |B|" ++ Spec.newline).
    simpl. intros E. discriminate E.
Qed.

(** C4 (amended): for a start address that is not negative and data that
    ends at 0x10000 at the latest, so that every row address is a 16-bit
    value, the dump is, for each row offset [i = 0, 16, 32, ...] below the
    length of the data, the number [startAddr + i] in four upper-case
    hexadecimal digits followed by [: ], then 16 column slots, each the
    byte in two upper-case hexadecimal digits and a space when in bounds
    and three spaces otherwise, with one more space after column 7, then
    [ |], one character per in-bounds byte (0x20..0x7E as itself, a dot
    otherwise), then [|] and a newline. The dump of the bytes 41 42 at
    0x0400 is the single row [0400: 41 42], padded to full width, then
    [|AB|]. *)
Theorem FormatMemoryDump_layout (data : list byte) (startAddr : Z) :
  0 <= startAddr ->
  startAddr + Z.of_nat (length data) <= 0x10000 ->
  FormatMemoryDump data startAddr = DumpSpec.format_dump data startAddr /\
  FormatMemoryDump [x41; x42] 0x0400
  = "0400: 41 42 " ++ "                  " ++ " " ++ "                        "
      ++ " |AB|" ++ Spec.newline.
Proof.
  intros H0 H1. split; [|reflexivity].
  rewrite FormatMemoryDump_rows. unfold Spec.format_dump, DumpSpec.format_dump.
  f_equal. apply map_ext_in. intros i Hi.
  assert (Hlt : (i < length data)%nat).
  { unfold Spec.row_offsets in Hi.
    apply in_map_iff in Hi as (k & <- & Hk). apply in_seq in Hk.
    pose proof (row_count_bounds (length data)). lia. }
  apply row_hex; lia.
Qed.

Lemma FormatMemoryDump_layout_witness :
  FormatMemoryDump [x41; x42] 0x0400 = DumpSpec.format_dump [x41; x42] 0x0400 /\
  FormatMemoryDump [x41; x42] 0x0400
  = "0400: 41 42 " ++ "                  " ++ " " ++ "                        "
      ++ " |AB|" ++ Spec.newline.
Proof.
  apply (FormatMemoryDump_layout [x41; x42] 0x0400).
  - lia.
  - simpl. lia.
Defined.

Lemma row_offsets_lt (n i : nat) : In i (Spec.row_offsets n) -> (i < n)%nat.
Proof.
  unfold Spec.row_offsets. intros H.
  apply in_map_iff in H as (k & <- & Hk). apply in_seq in Hk.
  pose proof (row_count_bounds n). lia.
Qed.

(** C9 (as stated) fails on the code: with the start address 0xFFF8, which
    is a 16-bit value, and 17 bytes of data, the second row is at offset 16
    and its address is rendered with the five digits [10008]. *)
Lemma FormatMemoryDump_address_past_FFFF :
  0 <= 0xFFF8 <= 0xFFFF /\
  FormatMemoryDump (repeat x41 17) 0xFFF8
  = "FFF8: 41 41 41 41 41 41 41 41  41 41 41 41 41 41 41 41  |AAAAAAAAAAAAAAAA|"
      ++ Spec.newline
      ++ "10008: 41 " ++ "                     " ++ " " ++ "                        "
      ++ " |A|" ++ Spec.newline /\
  String.length (fmt.Sprintf_04X (0xFFF8 + 16)) = 5%nat.
Proof. split; [lia|]. split; reflexivity. Qed.

(** C9 (amended): for a start address in [0, 0xFFFF] and data whose length
    leaves the address sum within an [int], the address of every row is
    rendered in upper-case hexadecimal digits that write
    [startAddr + offset]: exactly four digits while that sum is at most
    0xFFFF, and more than four digits, without wrapping to 16 bits, when
    the offset carries it past 0xFFFF. *)
Theorem FormatMemoryDump_addresses (data : list byte) (startAddr : Z) :
  0 <= startAddr <= 0xFFFF ->
  Z.of_nat (length data) + 0xFFFF <= GoInt.max_int ->
  FormatMemoryDump data startAddr
  = Spec.join (map (Spec.row data startAddr) (Spec.row_offsets (length data))) /\
  forall i,
    In i (Spec.row_offsets (length data)) ->
    let a := startAddr + Z.of_nat i in
    (exists tail, Spec.row data startAddr i = fmt.Sprintf_04X a ++ ": " ++ tail) /\
    Spec.base16 (fmt.Sprintf_04X a) = Some (Z.to_N a) /\
    Forall Spec.upper_hex_char (list_ascii_of_string (fmt.Sprintf_04X a)) /\
    (a <= 0xFFFF -> String.length (fmt.Sprintf_04X a) = 4%nat) /\
    (0xFFFF < a -> (4 < String.length (fmt.Sprintf_04X a))%nat).
Proof.
  intros Hs Hl. split; [apply FormatMemoryDump_rows|].
  intros i Hi a. apply row_offsets_lt in Hi.
  assert (Ha : 0 <= a <= GoInt.max_int) by (unfold a, GoInt.max_int in *; lia).
  split.
  - unfold Spec.row. rewrite GoInt_add_exact
      by (unfold GoInt.min_int, GoInt.max_int in *; lia).
    eexists. reflexivity.
  - apply Sprintf_04X_address. exact Ha.
Qed.

Lemma FormatMemoryDump_addresses_witness :
  FormatMemoryDump (repeat x41 17) 0xFFF8
  = Spec.join (map (Spec.row (repeat x41 17) 0xFFF8)
                 (Spec.row_offsets (length (repeat x41 17)))) /\
  forall i,
    In i (Spec.row_offsets (length (repeat x41 17))) ->
    let a := 0xFFF8 + Z.of_nat i in
    (exists tail, Spec.row (repeat x41 17) 0xFFF8 i = fmt.Sprintf_04X a ++ ": " ++ tail) /\
    Spec.base16 (fmt.Sprintf_04X a) = Some (Z.to_N a) /\
    Forall Spec.upper_hex_char (list_ascii_of_string (fmt.Sprintf_04X a)) /\
    (a <= 0xFFFF -> String.length (fmt.Sprintf_04X a) = 4%nat) /\
    (0xFFFF < a -> (4 < String.length (fmt.Sprintf_04X a))%nat).
Proof.
  apply (FormatMemoryDump_addresses (repeat x41 17) 0xFFF8).
  - lia.
  - vm_compute. discriminate.
Defined.

(** ** [parseResponse] *)

Lemma collect_errors_spec (acc : list string) (errors : list json) :
  collect_errors acc errors = (acc ++ Spec.strings_of errors)%list.
Proof.
  unfold collect_errors. revert acc.
  induction errors as [|e errors IH]; intros acc; simpl.
  - now rewrite app_nil_r.
  - destruct e; rewrite IH; try reflexivity.
    now rewrite <- app_assoc.
Qed.

Lemma check_status_errors (resp : http_Response) (apiResp : Response) :
  Errors (check_status resp apiResp)
  = if (http_StatusCode resp <? 200) || (300 <=? http_StatusCode resp)
    then match Errors apiResp with
         | [] => [Spec.status_error (http_StatusCode resp) (http_Status resp)]
         | _ => Errors apiResp
         end
    else Errors apiResp.
Proof.
  unfold check_status.
  destruct ((http_StatusCode resp <? 200) || (300 <=? http_StatusCode resp));
    [|reflexivity].
  destruct (Errors apiResp) eqn:E; simpl; [reflexivity | exact E].
Qed.

Lemma check_status_fields (resp : http_Response) (apiResp : Response) :
  Data (check_status resp apiResp) = Data apiResp /\
  StatusCode (check_status resp apiResp) = StatusCode apiResp /\
  RawBody (check_status resp apiResp) = RawBody apiResp.
Proof.
  unfold check_status.
  destruct ((http_StatusCode resp <? 200) || (300 <=? http_StatusCode resp));
    [|easy].
  destruct (length (Errors apiResp) =? 0)%nat; easy.
Qed.

Section Envelope.
Context `{Runtime}.

(** A response whose body is empty or decodes: the fields of the result. *)
Lemma parseResponse_decoded (resp : http_Response) (body : list byte) :
  http_Body resp = Ok body ->
  body = [] \/ json_Unmarshal body <> None ->
  exists r,
    parseResponse resp = Ok r /\
    RawBody r = body /\
    StatusCode r = http_StatusCode resp /\
    Errors r
    = (if (http_StatusCode resp <? 200) || (300 <=? http_StatusCode resp)
       then match body_errors body (json_Unmarshal body) with
            | [] => [Spec.status_error (http_StatusCode resp) (http_Status resp)]
            | errs => errs
            end
       else body_errors body (json_Unmarshal body)) /\
    Data r
    = match body, json_Unmarshal body with
      | _ :: _, Some jsonData =>
          match jsonData !! "errors" with
          | Some (JArray _) => delete "errors" jsonData
          | _ => jsonData
          end
      | _, _ => ∅
      end.
Proof.
  intros Hb Hd. unfold parseResponse. rewrite Hb.
  destruct body as [|b body].
  - simpl. eexists. split; [reflexivity|].
    pose proof (check_status_fields resp (mkResponse [] ∅ (http_StatusCode resp) []))
      as (HD & HS & HR).
    rewrite check_status_errors, HD, HS, HR. simpl. auto.
  - destruct Hd as [Hd|Hd]; [discriminate Hd|].
    change (0 <? length (b :: body))%nat with true. cbv iota.
    destruct (json_Unmarshal (b :: body)) as [jsonData|] eqn:E; [|congruence].
    eexists. split; [reflexivity|].
    match goal with
    | |- context [check_status resp ?a] =>
        pose proof (check_status_fields resp a) as (HD & HS & HR);
        rewrite check_status_errors, HD, HS, HR
    end.
    unfold body_errors.
    destruct (jsonData !! "errors") as [[]|]; simpl;
      rewrite ?collect_errors_spec; simpl; auto.
    repeat split.
    destruct ((http_StatusCode resp <? 200) || (300 <=? http_StatusCode resp));
      [destruct (Spec.strings_of l)|]; reflexivity.
Qed.

(** C1 (amended): when the status is outside [200,300), that is below 200
    or at least 300, and the body is empty or decodes as JSON, and no
    error string came out of the body, [parseResponse] returns exactly
    one error, the synthesized [HTTP <code>: <status text>]; when the
    body did bring error strings, or the status is in [200,300) (299
    included), the errors are those of the body and nothing is
    synthesized. *)
Theorem parseResponse_status_error (resp : http_Response) (body : list byte) :
  http_Body resp = Ok body ->
  body = [] \/ json_Unmarshal body <> None ->
  exists r,
    parseResponse resp = Ok r /\
    (~ success_status (http_StatusCode resp) ->
     body_errors body (json_Unmarshal body) = [] ->
     Errors r = [Spec.status_error (http_StatusCode resp) (http_Status resp)]) /\
    (body_errors body (json_Unmarshal body) <> [] ->
     Errors r = body_errors body (json_Unmarshal body)) /\
    (success_status (http_StatusCode resp) ->
     Errors r = body_errors body (json_Unmarshal body)).
Proof.
  intros Hb Hd.
  destruct (parseResponse_decoded resp body Hb Hd) as (r & Hr & _ & _ & He & _).
  exists r. split; [exact Hr|]. rewrite He. unfold success_status.
  destruct ((http_StatusCode resp <? 200) || (300 <=? http_StatusCode resp)) eqn:E.
  - apply orb_prop in E.
    assert (Hbad : ~ 200 <= http_StatusCode resp < 300)
      by (destruct E as [E|E]; [apply Z.ltb_lt in E | apply Z.leb_le in E]; lia).
    repeat split.
    + intros _ ->. reflexivity.
    + intros Hne. destruct (body_errors body (json_Unmarshal body)); congruence.
    + intros Hok. contradiction.
  - apply orb_false_elim in E as [E1 E2].
    apply Z.ltb_ge in E1. apply Z.leb_gt in E2.
    repeat split; try reflexivity.
    intros Hbad. exfalso. apply Hbad. lia.
Qed.

(** The body that does not decode: the response is returned as it stands,
    whatever the status. *)
Lemma parseResponse_opaque (resp : http_Response) (body : list byte) :
  http_Body resp = Ok body ->
  body <> [] -> json_Unmarshal body = None ->
  parseResponse resp = Ok (mkResponse [] ∅ (http_StatusCode resp) body).
Proof.
  intros Hb Hne Hd. unfold parseResponse. rewrite Hb.
  destruct body as [|b body]; [congruence|].
  change (0 <? length (b :: body))%nat with true. cbv iota. now rewrite Hd.
Qed.

(** [RawBody] is the body as received, whether it decodes or not. *)
Lemma parseResponse_raw (resp : http_Response) (body : list byte) (r : Response) :
  http_Body resp = Ok body -> parseResponse resp = Ok r ->
  RawBody r = body /\ StatusCode r = http_StatusCode resp.
Proof.
  intros Hb Hr.
  destruct body as [|b body].
  - destruct (parseResponse_decoded resp [] Hb (or_introl eq_refl))
      as (r' & Hr' & HR & HS & _).
    rewrite Hr in Hr'. injection Hr' as <-. auto.
  - destruct (json_Unmarshal (b :: body)) eqn:E.
    + destruct (parseResponse_decoded resp (b :: body) Hb) as (r' & Hr' & HR & HS & _).
      { right. congruence. }
      rewrite Hr in Hr'. injection Hr' as <-. auto.
    + rewrite (parseResponse_opaque resp (b :: body) Hb) in Hr by easy.
      injection Hr as <-. auto.
Qed.

End Envelope.

(** C1 (as stated) fails on the code: 299 is outside [200,299), the body is
    empty and no error came out of it, and yet no error is synthesized: the
    code takes every status below 300 for a success. *)
Lemma parseResponse_status_299 :
  ~ (200 <= 299 < 299) /\
  @parseResponse Reference.runtime (mkHTTPResponse 299 "299 status" (Ok []))
  = Ok (mkResponse [] ∅ 299 []).
Proof. split; [lia | reflexivity]. Qed.

Lemma parseResponse_status_error_witness :
  exists r,
    @parseResponse Reference.runtime (mkHTTPResponse 404 "404 Not Found" (Ok [])) = Ok r /\
    (~ success_status 404 ->
     body_errors [] (Reference.Unmarshal []) = [] ->
     Errors r = [Spec.status_error 404 "404 Not Found"]) /\
    (body_errors [] (Reference.Unmarshal []) <> [] ->
     Errors r = body_errors [] (Reference.Unmarshal [])) /\
    (success_status 404 -> Errors r = body_errors [] (Reference.Unmarshal [])).
Proof.
  apply (@parseResponse_status_error Reference.runtime
           (mkHTTPResponse 404 "404 Not Found" (Ok [])) []).
  - reflexivity.
  - left. reflexivity.
Defined.

(** The synthesized error of the status 404 reads [HTTP 404: 404 Not Found];
    a body that is not JSON is handed back without it. *)
Example parseResponse_not_found :
  @parseResponse Reference.runtime (mkHTTPResponse 404 "404 Not Found" (Ok []))
  = Ok (mkResponse ["HTTP 404: 404 Not Found"] ∅ 404 []) /\
  @parseResponse Reference.runtime
    (mkHTTPResponse 500 "500 Internal Server Error" (Ok (list_byte_of_string "oops")))
  = Ok (mkResponse [] ∅ 500 (list_byte_of_string "oops")).
Proof. split; reflexivity. Qed.

Section Payload.
Context `{Runtime}.

(** The errors of a response whose body carries none. *)
Lemma no_body_errors (resp : http_Response) (r : Response) :
  Errors r
  = (if (http_StatusCode resp <? 200) || (300 <=? http_StatusCode resp)
     then [Spec.status_error (http_StatusCode resp) (http_Status resp)]
     else []) ->
  (success_status (http_StatusCode resp) -> Errors r = []) /\
  (~ success_status (http_StatusCode resp) ->
   Errors r = [Spec.status_error (http_StatusCode resp) (http_Status resp)]).
Proof.
  intros ->. unfold success_status.
  destruct ((http_StatusCode resp <? 200) || (300 <=? http_StatusCode resp)) eqn:E.
  - apply orb_prop in E. split; [|reflexivity].
    intros Hs. destruct E as [E|E]; [apply Z.ltb_lt in E | apply Z.leb_le in E]; lia.
  - apply orb_false_elim in E as [E1 E2].
    apply Z.ltb_ge in E1. apply Z.leb_gt in E2.
    split; [reflexivity|]. intros Hbad. exfalso. apply Hbad. lia.
Qed.

(** C5 (amended): for a body that decodes as a JSON object, [RawBody] is
    the body as received (as it is for every response, decoded or not).
    When the object has an [errors] array, its string entries are the
    errors, in order and without the other entries (when there is none
    and the status is not a success, the synthesized status error stands
    alone), and the payload is the object without the key [errors]. When
    [errors] is absent the payload is the object. When [errors] is not an
    array it stays in the payload. In these two cases the body yields no
    error: the errors are empty for a success status, and the synthesized
    status error alone otherwise. The body [{"errors":["bad address"]}]
    with status 400 gives the errors [bad address] and an empty
    payload. *)
Theorem parseResponse_envelope (resp : http_Response) (body : list byte)
  (jsonData : gmap string json) :
  http_Body resp = Ok body ->
  body <> [] ->
  json_Unmarshal body = Some jsonData ->
  exists r,
    parseResponse resp = Ok r /\
    RawBody r = body /\
    (forall errors,
        jsonData !! "errors" = Some (JArray errors) ->
        Data r = delete "errors" jsonData /\
        Data r !! "errors" = None /\
        (Spec.strings_of errors <> [] \/ success_status (http_StatusCode resp) ->
         Errors r = Spec.strings_of errors) /\
        (Spec.strings_of errors = [] -> ~ success_status (http_StatusCode resp) ->
         Errors r = [Spec.status_error (http_StatusCode resp) (http_Status resp)])) /\
    (jsonData !! "errors" = None ->
     Data r = jsonData /\
     (success_status (http_StatusCode resp) -> Errors r = []) /\
     (~ success_status (http_StatusCode resp) ->
      Errors r = [Spec.status_error (http_StatusCode resp) (http_Status resp)])) /\
    (forall v,
        jsonData !! "errors" = Some v -> (forall errors, v <> JArray errors) ->
        Data r = jsonData /\ Data r !! "errors" = Some v /\
        (success_status (http_StatusCode resp) -> Errors r = []) /\
        (~ success_status (http_StatusCode resp) ->
         Errors r = [Spec.status_error (http_StatusCode resp) (http_Status resp)])) /\
    (forall resp' body' r',
        http_Body resp' = Ok body' -> parseResponse resp' = Ok r' ->
        RawBody r' = body') /\
    @parseResponse Reference.runtime
      (mkHTTPResponse 400 "400 Bad Request"
         (Ok (list_byte_of_string
                ("{" ++ Reference.q "errors" ++ ":["
                     ++ Reference.q "bad address" ++ "]}"))))
    = Ok (mkResponse ["bad address"] ∅ 400
            (list_byte_of_string
               ("{" ++ Reference.q "errors" ++ ":["
                    ++ Reference.q "bad address" ++ "]}"))).
Proof.
  intros Hb Hne Hd.
  destruct (parseResponse_decoded resp body Hb) as (r & Hr & HR & _ & He & HD).
  { right. congruence. }
  exists r. split; [exact Hr|]. split; [exact HR|].
  destruct body as [|b body]; [congruence|]. unfold body_errors in He.
  rewrite Hd in HD, He.
  split; [|split; [|split; [|split]]].
  - intros errors Herr. rewrite Herr in HD, He.
    split; [exact HD|]. split; [rewrite HD; apply lookup_delete_eq|].
    rewrite He. unfold success_status.
    destruct ((http_StatusCode resp <? 200) || (300 <=? http_StatusCode resp)) eqn:E.
    + apply orb_prop in E.
      assert (Hbad : ~ 200 <= http_StatusCode resp < 300)
        by (destruct E as [E|E]; [apply Z.ltb_lt in E | apply Z.leb_le in E]; lia).
      split.
      * intros [Hs|Hs]; [|contradiction].
        destruct (Spec.strings_of errors); congruence.
      * intros -> _. reflexivity.
    + apply orb_false_elim in E as [E1 E2].
      apply Z.ltb_ge in E1. apply Z.leb_gt in E2.
      split; [reflexivity|]. intros _ Hbad. exfalso. apply Hbad. lia.
  - intros Herr. rewrite Herr in HD, He.
    split; [exact HD|]. now apply no_body_errors.
  - intros v Herr Hv. rewrite Herr in HD, He.
    assert (HD' : Data r = jsonData)
      by (destruct v; try exact HD; now contradiction (Hv l)).
    split; [exact HD'|]. split; [now rewrite HD'|].
    apply no_body_errors.
    destruct v; try exact He. now contradiction (Hv l).
  - intros resp' body' r' Hb' Hr'. now apply (parseResponse_raw resp' body' r' Hb' Hr').
  - vm_compute. reflexivity.
Qed.

End Payload.

(** C5 (as stated) fails on the code: the body [{"errors":"oops"}] decodes
    as a JSON object, and the key [errors] is still in the payload, since
    its value is not an array. *)
Lemma parseResponse_errors_not_array :
  exists r,
    @parseResponse Reference.runtime
      (mkHTTPResponse 200 "200 OK"
         (Ok (list_byte_of_string
                ("{" ++ Reference.q "errors" ++ ":" ++ Reference.q "oops" ++ "}"))))
    = Ok r /\
    Reference.Unmarshal
      (list_byte_of_string
         ("{" ++ Reference.q "errors" ++ ":" ++ Reference.q "oops" ++ "}"))
    = Some {[ "errors" := JString "oops" ]} /\
    Data r !! "errors" = Some (JString "oops") /\
    Errors r = [].
Proof. eexists. split; [reflexivity|]. split; [|split]; vm_compute; reflexivity. Qed.

(** The value that is not an array with a status that is not a success:
    the body [{"errors":"oops"}] with status 400 yields the status error
    alone, and [errors] stays in the payload. *)
Example parseResponse_errors_string_400 :
  @parseResponse Reference.runtime
    (mkHTTPResponse 400 "400 Bad Request"
       (Ok (list_byte_of_string
              ("{" ++ Reference.q "errors" ++ ":" ++ Reference.q "oops" ++ "}"))))
  = Ok (mkResponse ["HTTP 400: 400 Bad Request"] {[ "errors" := JString "oops" ]} 400
          (list_byte_of_string
             ("{" ++ Reference.q "errors" ++ ":" ++ Reference.q "oops" ++ "}"))).
Proof. vm_compute. reflexivity. Qed.

Lemma parseResponse_envelope_witness :
  exists r,
    @parseResponse Reference.runtime
      (mkHTTPResponse 400 "400 Bad Request" (Ok envelope_body)) = Ok r /\
    RawBody r = envelope_body /\
    (forall errors,
        envelope_object !! "errors" = Some (JArray errors) ->
        Data r = delete "errors" envelope_object /\
        Data r !! "errors" = None /\
        (Spec.strings_of errors <> [] \/ success_status 400 ->
         Errors r = Spec.strings_of errors) /\
        (Spec.strings_of errors = [] -> ~ success_status 400 ->
         Errors r = [Spec.status_error 400 "400 Bad Request"])) /\
    (envelope_object !! "errors" = None ->
     Data r = envelope_object /\
     (success_status 400 -> Errors r = []) /\
     (~ success_status 400 ->
      Errors r = [Spec.status_error 400 "400 Bad Request"])) /\
    (forall v,
        envelope_object !! "errors" = Some v ->
        (forall errors, v <> JArray errors) ->
        Data r = envelope_object /\ Data r !! "errors" = Some v /\
        (success_status 400 -> Errors r = []) /\
        (~ success_status 400 ->
         Errors r = [Spec.status_error 400 "400 Bad Request"])) /\
    (forall resp' body' r',
        http_Body resp' = Ok body' -> @parseResponse Reference.runtime resp' = Ok r' ->
        RawBody r' = body') /\
    @parseResponse Reference.runtime
      (mkHTTPResponse 400 "400 Bad Request"
         (Ok (list_byte_of_string
                ("{" ++ Reference.q "errors" ++ ":["
                     ++ Reference.q "bad address" ++ "]}"))))
    = Ok (mkResponse ["bad address"] ∅ 400
            (list_byte_of_string
               ("{" ++ Reference.q "errors" ++ ":["
                    ++ Reference.q "bad address" ++ "]}"))).
Proof.
  apply (@parseResponse_envelope Reference.runtime
           (mkHTTPResponse 400 "400 Bad Request" (Ok envelope_body))
           envelope_body envelope_object).
  - reflexivity.
  - discriminate.
  - vm_compute. reflexivity.
Defined.

(** With the [errors] array of that body, the errors are its two strings
    and the payload is what is left of the object. *)
Example parseResponse_envelope_run :
  @parseResponse Reference.runtime
    (mkHTTPResponse 400 "400 Bad Request" (Ok envelope_body))
  = Ok (mkResponse ["bad address"; "no drive"] {[ "drive" := JString "a" ]} 400
          envelope_body).
Proof. vm_compute. reflexivity. Qed.

(** ** The payload accessors *)

Section Accessors.
Context `{Runtime}.

Lemma integer_part_unique (num den z z' : Z) :
  0 < den -> integer_part num den z -> integer_part num den z' -> z = z'.
Proof.
  unfold integer_part. intros Hd [[L U] S] [[L' U'] S'].
  assert (Ha : Z.abs z = Z.abs z') by nia.
  destruct (Z.lt_trichotomy num 0) as [Hn|[Hn|Hn]].
  - assert (z <= 0) by nia. assert (z' <= 0) by nia. lia.
  - subst num. simpl in L, L'. assert (Z.abs z = 0) by nia. lia.
  - assert (0 <= z) by nia. assert (0 <= z') by nia. lia.
Qed.

(** The conversion computes the integer part of the number the float
    holds. *)
Lemma float64_trunc_integer_part (f : spec_float) (num den : Z) :
  float_fraction f = Some (num, den) ->
  0 < den /\ exists z, float64_trunc f = Some z /\ integer_part num den z.
Proof.
  unfold integer_part.
  destruct f as [s| | |s m e]; try discriminate; simpl.
  - intros [= <- <-]. split; [lia|]. exists 0. split; [reflexivity|]. lia.
  - destruct (0 <=? e) eqn:E; intros [= <- <-].
    + apply Z.leb_le in E. split; [lia|].
      assert (0 < 2 ^ e) by (apply Z.pow_pos_nonneg; lia).
      eexists. split; [reflexivity|].
      destruct s; nia.
    + apply Z.leb_gt in E.
      assert (Hp : 0 < 2 ^ (- e)) by (apply Z.pow_pos_nonneg; lia).
      split; [exact Hp|].
      eexists. split; [reflexivity|].
      pose proof (Z.mul_div_le (Z.pos m) (2 ^ (- e)) Hp).
      pose proof (Z.mul_succ_div_gt (Z.pos m) (2 ^ (- e)) Hp).
      assert (0 <= Z.pos m / 2 ^ (- e)) by (apply Z.div_pos; lia).
      destruct s; nia.
Qed.

(** C10 (amended): the accessors are total. [GetString] is the value of a
    key that holds a JSON string, and the empty string when the key is
    absent or holds anything else. For a key that holds a JSON number,
    the number has one integer part (towards zero); [GetInt] is that
    integer when it is an [int], and what the platform makes of the
    conversion when it is not, or when the number is not finite. [GetInt]
    is 0 when the key is absent or holds anything else. *)
Theorem accessors_total (r : Response) (key : string) :
  (forall s, Data r !! key = Some (JString s) -> GetString r key = s) /\
  (Data r !! key = None -> GetString r key = "") /\
  (forall v, Data r !! key = Some v -> (forall s, v <> JString s) ->
             GetString r key = "") /\
  (forall f num den,
      Data r !! key = Some (JNumber f) ->
      float_fraction f = Some (num, den) ->
      exists z,
        integer_part num den z /\
        (forall z', integer_part num den z' -> z' = z) /\
        (GoInt.in_range z -> GetInt r key = z) /\
        (~ GoInt.in_range z -> GetInt r key = int_of_unrepresentable f)) /\
  (forall f, Data r !! key = Some (JNumber f) -> float_fraction f = None ->
             GetInt r key = int_of_unrepresentable f) /\
  (Data r !! key = None -> GetInt r key = 0) /\
  (forall v, Data r !! key = Some v -> (forall f, v <> JNumber f) ->
             GetInt r key = 0).
Proof.
  unfold GetString, GetInt.
  split; [|split; [|split; [|split; [|split; [|split]]]]].
  - intros s ->. reflexivity.
  - intros ->. reflexivity.
  - intros v -> Hv. destruct v; try reflexivity. now contradiction (Hv s).
  - intros f num den -> Hf.
    destruct (float64_trunc_integer_part f num den Hf) as (Hd & z & Hz & Hp).
    exists z. split; [exact Hp|]. split.
    { intros z' Hp'. now apply (integer_part_unique num den z' z). }
    unfold int_of_float64, GoInt.in_range. rewrite Hz.
    destruct (Z.leb_spec GoInt.min_int z) as [E1|E1];
      destruct (Z.leb_spec z GoInt.max_int) as [E2|E2];
      simpl; split; intros Hr; first [reflexivity | lia].
  - intros f -> Hf. unfold int_of_float64.
    destruct f; try discriminate Hf; reflexivity.
  - intros ->. reflexivity.
  - intros v -> Hv. destruct v; try reflexivity. now contradiction (Hv f).
Qed.

End Accessors.

(** The accessors on the payload [{"name":"tune","size":174848,"ratio":-1.9}]
    decoded by the reference runtime. *)
Example accessors_run :
  let body :=
    list_byte_of_string
      ("{" ++ Reference.q "name" ++ ":" ++ Reference.q "tune" ++ ","
           ++ Reference.q "size" ++ ":174848,"
           ++ Reference.q "ratio" ++ ":-1.9}") in
  match @parseResponse Reference.runtime (mkHTTPResponse 200 "200 OK" (Ok body)) with
  | Ok r =>
      GetString r "name" = "tune" /\ GetString r "size" = "" /\
      GetString r "missing" = "" /\
      @GetInt Reference.runtime r "size" = 174848 /\
      @GetInt Reference.runtime r "ratio" = -1 /\
      @GetInt Reference.runtime r "name" = 0 /\
      @GetInt Reference.runtime r "missing" = 0
  | Err _ => False
  end.
Proof. vm_compute. repeat split. Qed.

(** C10 (as stated) fails on the code: the body [{"n":1e19}] is a JSON
    object whose key [n] holds the number 10^19, which is its own integer
    part and is no [int]; on the reference platform [GetInt] gives the
    least [int]. *)
Lemma GetInt_beyond_int :
  exists r f,
    @parseResponse Reference.runtime
      (mkHTTPResponse 200 "200 OK"
         (Ok (list_byte_of_string ("{" ++ Reference.q "n" ++ ":1e19}"))))
    = Ok r /\
    Data r !! "n" = Some (JNumber f) /\
    float_fraction f = Some (10 ^ 19, 1) /\
    integer_part (10 ^ 19) 1 (10 ^ 19) /\
    @GetInt Reference.runtime r "n" = - 2 ^ 63 /\
    @GetInt Reference.runtime r "n" <> 10 ^ 19.
Proof.
  eexists. eexists. split; [vm_compute; reflexivity|].
  split; [vm_compute; reflexivity|].
  split; [vm_compute; reflexivity|].
  split; [unfold integer_part; lia|].
  split; [vm_compute; reflexivity|].
  vm_compute. discriminate.
Qed.

(** ** The request builders and the commands *)

Lemma issued_bind {A B} (m : M A) (f : A -> M B) :
  issued (bind m f) = (issued m ++ issued (f (value m)))%list.
Proof.
  unfold issued, value, bind. destruct m as [a w]. simpl.
  destruct (f a) as [b w']. reflexivity.
Qed.

Section Commands.
Context `{Runtime}.

Lemma issued_roundtrip (c : Client) (req : Request) :
  issued (roundtrip c req) = [req].
Proof. reflexivity. Qed.

Lemma streamsStartCmd_valid (c : Client) (stream ip : string) :
  stream = "video" \/ stream = "audio" \/ stream = "debug" ->
  issued (streamsStartCmd c [stream; ip])
  = [mkRequest MethodPut ("/v1/streams/" ++ stream ++ ":start") {[ "ip" := ip ]}
       None None].
Proof.
  intros Hs. unfold streamsStartCmd.
  replace (lookup_bool _ stream) with true
    by (destruct Hs as [ -> | [ -> | -> ] ]; reflexivity).
  cbn [negb]. rewrite issued_bind.
  unfold StreamsStart, Put. rewrite issued_roundtrip.
  match goal with
  | |- context [value ?m] => destruct (value m) as [resp|err]
  end; [destruct (HasErrors resp)|]; reflexivity.
Qed.

(** C6: a stream name other than [video], [audio] and [debug] ends the
    [streams start] command with the error [Invalid stream type] and no
    request is issued; [streams start video 1.2.3.4] issues one request,
    a PUT to [/v1/streams/video:start] with the one query parameter
    [ip=1.2.3.4]. *)
Theorem streamsStartCmd_validation (c : Client) (stream ip : string) :
  stream <> "video" -> stream <> "audio" -> stream <> "debug" ->
  (issued (streamsStartCmd c [stream; ip]) = [] /\
   value (streamsStartCmd c [stream; ip])
   = FormatterError "Invalid stream type"
       ["Stream '" ++ stream ++ "' is not valid";
        "Valid streams: video, audio, debug"]) /\
  issued (streamsStartCmd c ["video"; "1.2.3.4"])
  = [mkRequest MethodPut "/v1/streams/video:start" {[ "ip" := "1.2.3.4" ]}
       None None].
Proof.
  intros Hv Ha Hd. split.
  - unfold streamsStartCmd, lookup_bool.
    rewrite !lookup_insert_ne, lookup_empty by congruence.
    split; reflexivity.
  - apply (streamsStartCmd_valid c "video" "1.2.3.4"). now left.
Qed.

End Commands.

Lemma streamsStartCmd_validation_witness :
  (issued (@streamsStartCmd Reference.runtime
             (Reference.answering (mkHTTPResponse 200 "200 OK" (Ok [])))
             ["laser"; "1.2.3.4"]) = [] /\
   value (@streamsStartCmd Reference.runtime
            (Reference.answering (mkHTTPResponse 200 "200 OK" (Ok [])))
            ["laser"; "1.2.3.4"])
   = FormatterError "Invalid stream type"
       ["Stream '" ++ "laser" ++ "' is not valid";
        "Valid streams: video, audio, debug"]) /\
  issued (@streamsStartCmd Reference.runtime
            (Reference.answering (mkHTTPResponse 200 "200 OK" (Ok [])))
            ["video"; "1.2.3.4"])
  = [mkRequest MethodPut "/v1/streams/video:start" {[ "ip" := "1.2.3.4" ]} None None].
Proof.
  apply (@streamsStartCmd_validation Reference.runtime
           (Reference.answering (mkHTTPResponse 200 "200 OK" (Ok [])))
           "laser" "1.2.3.4"); discriminate.
Defined.

Section DiskImages.
Context `{Runtime}.

Lemma filesCreateDNPCmd_sends (c : Client) (path : string) (tracks : Z)
  (name : option string) :
  tracks <> 0 -> tracks <= 255 ->
  issued (filesCreateDNPCmd c [path] (mkDNPFlags (Some tracks) name))
  = [mkRequest MethodPut ("/v1/files/" ++ path ++ ":create_dnp")
       (if negb (String.eqb (default "" name) "")
        then <["diskname" := default "" name]> {[ "tracks" := strconv.Itoa tracks ]}
        else {[ "tracks" := strconv.Itoa tracks ]})
       None None].
Proof.
  intros Hz Hmax. unfold filesCreateDNPCmd. cbn [flag_tracks flag_name default from_option id].
  replace (tracks =? 0) with false by (symmetry; apply Z.eqb_neq; lia).
  replace (255 <? tracks) with false by (symmetry; apply Z.ltb_ge; lia).
  rewrite issued_bind. unfold FilesCreateDNP, Put. rewrite issued_roundtrip.
  match goal with
  | |- context [value ?m] => destruct (value m) as [resp|err]
  end; [destruct (HasErrors resp)|]; reflexivity.
Qed.

(** What the validation of [files create-dnp] does refuse: a command line
    without [--tracks], the track count 0 and every track count above
    255; none of them issues a request. The track count 200 issues a PUT
    to [/v1/files/<path>:create_dnp] with [tracks=200]. *)
Lemma filesCreateDNPCmd_refused (c : Client) (path : string) (name : option string) :
  (issued (filesCreateDNPCmd c [path] (mkDNPFlags None name)) = [] /\
   value (filesCreateDNPCmd c [path] (mkDNPFlags None name))
   = UsageError (RequiredFlag "tracks")) /\
  (issued (filesCreateDNPCmd c [path] (mkDNPFlags (Some 0) name)) = [] /\
   value (filesCreateDNPCmd c [path] (mkDNPFlags (Some 0) name))
   = FormatterError "Missing required flag" ["--tracks is required for DNP images"]) /\
  (forall tracks,
      255 < tracks ->
      issued (filesCreateDNPCmd c [path] (mkDNPFlags (Some tracks) name)) = [] /\
      value (filesCreateDNPCmd c [path] (mkDNPFlags (Some tracks) name))
      = FormatterError "Invalid tracks value" ["DNP images support max 255 tracks"]) /\
  issued (filesCreateDNPCmd c [path] (mkDNPFlags (Some 200) None))
  = [mkRequest MethodPut ("/v1/files/" ++ path ++ ":create_dnp")
       {[ "tracks" := "200" ]} None None].
Proof.
  split; [split; reflexivity|]. split; [split; reflexivity|]. split.
  - intros tracks Ht. unfold filesCreateDNPCmd. cbn [flag_tracks flag_name default from_option id].
    replace (tracks =? 0) with false by (symmetry; apply Z.eqb_neq; lia).
    replace (255 <? tracks) with true by (symmetry; apply Z.ltb_lt; lia).
    split; reflexivity.
  - now rewrite filesCreateDNPCmd_sends by lia.
Qed.

(** C7, on the code: a negative track count is outside [1,255] and passes
    the validation of [files create-dnp], which only refuses 0 and the
    counts above 255: with [--tracks -5] the command issues a PUT to
    [/v1/files/<path>:create_dnp] with [tracks=-5]. *)
Theorem filesCreateDNPCmd_negative_tracks (c : Client) :
  ~ (1 <= -5 <= 255) /\
  issued (filesCreateDNPCmd c ["/usb0/bigdisk.dnp"] (mkDNPFlags (Some (-5)) None))
  = [mkRequest MethodPut "/v1/files//usb0/bigdisk.dnp:create_dnp"
       {[ "tracks" := "-5" ]} None None].
Proof.
  split; [lia|]. now rewrite filesCreateDNPCmd_sends by lia.
Qed.

End DiskImages.

(** ** Upload variants *)

Section Uploads.
Context `{Runtime}.

(** C8: for each of the seven operations with an upload variant, when the
    local file opens, the upload variant issues a POST to the endpoint of
    the plain variant, with the parameters of the plain variant without
    the path parameter ([file], or [image] for a mount) and with the
    content of the local file as the body, where the plain variant issues
    a PUT without a body. *)
Theorem upload_variants (c : Client) (localFile : string) (content : list byte) :
  os_Open localFile = Ok content ->
  forall (file drive imageType mode : string) (songNr : Z),
    upload_variant "file" (SidPlay c file songNr)
      (SidPlayUpload c localFile songNr) content /\
    upload_variant "file" (ModPlay c file) (ModPlayUpload c localFile) content /\
    upload_variant "file" (LoadPRG c file) (LoadPRGUpload c localFile) content /\
    upload_variant "file" (RunPRG c file) (RunPRGUpload c localFile) content /\
    upload_variant "file" (RunCRT c file) (RunCRTUpload c localFile) content /\
    upload_variant "image" (DrivesMount c drive file imageType mode)
      (DrivesMountUpload c drive localFile imageType mode) content /\
    upload_variant "file" (DrivesLoadROM c drive file)
      (DrivesLoadROMUpload c drive localFile) content.
Proof.
  intros Ho file drive imageType mode songNr.
  unfold upload_variant, SidPlay, SidPlayUpload, ModPlay, ModPlayUpload,
    LoadPRG, LoadPRGUpload, RunPRG, RunPRGUpload, RunCRT, RunCRTUpload,
    DrivesMount, DrivesMountUpload, DrivesLoadROM, DrivesLoadROMUpload,
    Put, Post.
  rewrite Ho, !issued_roundtrip.
  repeat split.
  - eexists _, _. split; [reflexivity|].
    destruct (0 <? songNr).
    + split; [rewrite lookup_insert_ne by done; now rewrite lookup_singleton_eq|].
      now rewrite delete_insert_ne, delete_singleton_eq by done.
    + split; [now rewrite lookup_singleton_eq|]. now rewrite delete_singleton_eq.
  - eexists _, _. split; [reflexivity|].
    split; [now rewrite lookup_singleton_eq|]. now rewrite delete_singleton_eq.
  - eexists _, _. split; [reflexivity|].
    split; [now rewrite lookup_singleton_eq|]. now rewrite delete_singleton_eq.
  - eexists _, _. split; [reflexivity|].
    split; [now rewrite lookup_singleton_eq|]. now rewrite delete_singleton_eq.
  - eexists _, _. split; [reflexivity|].
    split; [now rewrite lookup_singleton_eq|]. now rewrite delete_singleton_eq.
  - eexists _, _. split; [reflexivity|].
    destruct (negb (String.eqb imageType "")), (negb (String.eqb mode ""));
      (split;
       [ rewrite ?lookup_insert_ne by done; now rewrite lookup_singleton_eq
       | now rewrite ?delete_insert_ne, delete_singleton_eq by done ]).
  - eexists _, _. split; [reflexivity|].
    split; [now rewrite lookup_singleton_eq|]. now rewrite delete_singleton_eq.
Qed.

(** When the local file does not open, the upload variant issues no request
    and returns the error. *)
Lemma upload_without_file (c : Client) (localFile err : string) :
  os_Open localFile = Err err ->
  forall (drive imageType mode : string) (songNr : Z),
    SidPlayUpload c localFile songNr = ret (Err ("failed to open file: " ++ err)) /\
    ModPlayUpload c localFile = ret (Err ("failed to open file: " ++ err)) /\
    LoadPRGUpload c localFile = ret (Err ("failed to open file: " ++ err)) /\
    RunPRGUpload c localFile = ret (Err ("failed to open file: " ++ err)) /\
    RunCRTUpload c localFile = ret (Err ("failed to open file: " ++ err)) /\
    DrivesMountUpload c drive localFile imageType mode
    = ret (Err ("failed to open file: " ++ err)) /\
    DrivesLoadROMUpload c drive localFile = ret (Err ("failed to open file: " ++ err)).
Proof.
  intros Ho drive imageType mode songNr.
  unfold SidPlayUpload, ModPlayUpload, LoadPRGUpload, RunPRGUpload, RunCRTUpload,
    DrivesMountUpload, DrivesLoadROMUpload.
  rewrite Ho. repeat split.
Qed.

End Uploads.

Lemma upload_variants_witness :
  let c := Reference.answering (mkHTTPResponse 200 "200 OK" (Ok [])) in
  let content := [x50; x53; x49; x44] in
  upload_variant "file" (@SidPlay Reference.runtime c "/usb0/tune.sid" 2)
    (@SidPlayUpload Reference.runtime c "tune.sid" 2) content /\
  upload_variant "file" (@ModPlay Reference.runtime c "/usb0/tune.sid")
    (@ModPlayUpload Reference.runtime c "tune.sid") content /\
  upload_variant "file" (@LoadPRG Reference.runtime c "/usb0/tune.sid")
    (@LoadPRGUpload Reference.runtime c "tune.sid") content /\
  upload_variant "file" (@RunPRG Reference.runtime c "/usb0/tune.sid")
    (@RunPRGUpload Reference.runtime c "tune.sid") content /\
  upload_variant "file" (@RunCRT Reference.runtime c "/usb0/tune.sid")
    (@RunCRTUpload Reference.runtime c "tune.sid") content /\
  upload_variant "image"
    (@DrivesMount Reference.runtime c "8" "/usb0/tune.sid" "d64" "readonly")
    (@DrivesMountUpload Reference.runtime c "8" "tune.sid" "d64" "readonly") content /\
  upload_variant "file" (@DrivesLoadROM Reference.runtime c "8" "/usb0/tune.sid")
    (@DrivesLoadROMUpload Reference.runtime c "8" "tune.sid") content.
Proof.
  intros c content.
  apply (@upload_variants Reference.runtime c "tune.sid" content).
  reflexivity.
Defined.

(** The requests of [sidplay /usb0/tune.sid --song 2] and of its upload
    variant on the reference runtime. *)
Example sidplay_requests :
  let c := Reference.answering (mkHTTPResponse 200 "200 OK" (Ok [])) in
  issued (@SidPlay Reference.runtime c "/usb0/tune.sid" 2)
  = [mkRequest MethodPut "/v1/runners:sidplay"
       (<["songnr" := "2"]> {[ "file" := "/usb0/tune.sid" ]}) None None] /\
  issued (@SidPlayUpload Reference.runtime c "tune.sid" 2)
  = [mkRequest MethodPost "/v1/runners:sidplay" {[ "songnr" := "2" ]}
       (Some [x50; x53; x49; x44]) (Some "application/octet-stream")] /\
  issued (@SidPlayUpload Reference.runtime c "missing.sid" 2) = [].
Proof. repeat split. Qed.


(** * Further properties of the code *)

(** ** The hexadecimal codec, both ways *)

Lemma EncodeToString_cons (b : byte) (bs : list byte) :
  hex.EncodeToString (b :: bs)
  = String (fmt.digit fmt.ldigits (N.shiftr (Byte.to_N b) 4))
      (String (fmt.digit fmt.ldigits (N.land (Byte.to_N b) 15))
         (hex.EncodeToString bs)).
Proof.
  unfold hex.EncodeToString. cbn [map String.concat].
  destruct (map _ bs) eqn:E; cbn [String.concat]; simpl; reflexivity.
Qed.

Lemma byte_digits (b : byte) :
  hex.fromHexChar (fmt.digit fmt.ldigits (N.shiftr (Byte.to_N b) 4))
  = Some (N.shiftr (Byte.to_N b) 4) /\
  hex.fromHexChar (fmt.digit fmt.ldigits (N.land (Byte.to_N b) 15))
  = Some (N.land (Byte.to_N b) 15) /\
  byte_of_N (N.lor (N.shiftl (N.shiftr (Byte.to_N b) 4) 4) (N.land (Byte.to_N b) 15)) = b /\
  fmt.digit fmt.ldigits (N.land (Byte.to_N b) 15) <> "x"%char /\
  lower_hex_char (fmt.digit fmt.ldigits (N.shiftr (Byte.to_N b) 4)) /\
  lower_hex_char (fmt.digit fmt.ldigits (N.land (Byte.to_N b) 15)).
Proof.
  unfold lower_hex_char.
  destruct b; vm_compute;
    (split; [reflexivity|]); (split; [reflexivity|]); (split; [reflexivity|]);
    (split; [discriminate|]);
    split; repeat (first [left; reflexivity | right]).
Qed.

Lemma EncodeToString_length (data : list byte) :
  String.length (hex.EncodeToString data) = (2 * length data)%nat.
Proof.
  induction data as [|b data IH]; [reflexivity|].
  rewrite EncodeToString_cons. simpl String.length. simpl length. rewrite IH. lia.
Qed.

Lemma Decode_EncodeToString (data : list byte) :
  hex.Decode (hex.EncodeToString data) = (data, None).
Proof.
  induction data as [|b data IH]; [reflexivity|].
  rewrite EncodeToString_cons.
  destruct (byte_digits b) as (Hh & Hl & Hb & _).
  cbn [hex.Decode]. rewrite Hh, Hl, IH, Hb. reflexivity.
Qed.

Lemma EncodeToString_lower (data : list byte) :
  Forall lower_hex_char (list_ascii_of_string (hex.EncodeToString data)).
Proof.
  induction data as [|b data IH]; [constructor|].
  rewrite EncodeToString_cons.
  destruct (byte_digits b) as (_ & _ & _ & _ & Hh & Hl).
  simpl. constructor; [exact Hh|]. constructor; [exact Hl | exact IH].
Qed.

Lemma hexToBytes_EncodeToString (data : list byte) :
  hexToBytes (hex.EncodeToString data) = (data, None).
Proof.
  rewrite (hexToBytes_stripped (hex.EncodeToString data) (hex.EncodeToString data)).
  - unfold padded. rewrite EncodeToString_length.
    replace (2 * length data)%nat with (0 + length data * 2)%nat by lia.
    rewrite Nat.Div0.mod_add. cbn [Nat.modulo Nat.eqb]. simpl.
    apply Decode_EncodeToString.
  - apply Spec.stripped_plain. intros body _ He.
    destruct data as [|b data]; [discriminate He|].
    rewrite EncodeToString_cons in He.
    destruct (byte_digits b) as (_ & _ & _ & Hx & _).
    simpl in He. injection He as _ He _. contradiction.
Qed.

(** X1. [bytesToHex] writes two lower-case hexadecimal digits per byte, and
    [hexToBytes] reads them back: the round trip from bytes is the
    identity and never fails. *)
Theorem bytesToHex_hexToBytes (data : list byte) :
  hexToBytes (bytesToHex data) = (data, None) /\
  String.length (bytesToHex data) = (2 * length data)%nat /\
  Forall lower_hex_char (list_ascii_of_string (bytesToHex data)).
Proof.
  unfold bytesToHex.
  split; [apply hexToBytes_EncodeToString|].
  split; [apply EncodeToString_length | apply EncodeToString_lower].
Qed.

Lemma lower_digit (p : ascii) (a : N) :
  hex.fromHexChar p = Some a -> fmt.digit fmt.ldigits a = lower_ascii p.
Proof.
  destruct p as [[] [] [] [] [] [] [] []]; vm_compute; intros E;
    first [discriminate E | injection E as <-; reflexivity].
Qed.

Lemma nibbles_split (a b : N) :
  (a < 16)%N -> (b < 16)%N ->
  N.shiftr (16 * a + b) 4 = a /\ N.land (16 * a + b) 15 = b.
Proof.
  intros Ha Hb.
  assert (Ea : In a [0; 1; 2; 3; 4; 5; 6; 7; 8; 9; 10; 11; 12; 13; 14; 15]%N)
    by (simpl; lia).
  assert (Eb : In b [0; 1; 2; 3; 4; 5; 6; 7; 8; 9; 10; 11; 12; 13; 14; 15]%N)
    by (simpl; lia).
  simpl in Ea, Eb.
  repeat (destruct Ea as [<-|Ea];
          [repeat (destruct Eb as [<-|Eb]; [split; reflexivity|]); easy|]).
  easy.
Qed.

Lemma EncodeToString_Decode (t : string) :
  even_length t -> Spec.all_hex t ->
  hex.EncodeToString (fst (hex.Decode t)) = lower_string t.
Proof.
  induction t as [|c|p q rest IH] using string_pair_ind; intros He Hh.
  - reflexivity.
  - discriminate He.
  - apply even_length_pair in He.
    unfold Spec.all_hex in Hh. simpl in Hh.
    apply Forall_cons_1 in Hh as [Hp Hh]. apply Forall_cons_1 in Hh as [Hq Hh].
    specialize (IH He Hh).
    apply fromHexChar_hex_char in Hp, Hq.
    destruct (hex.fromHexChar p) as [a|] eqn:Ea; [|congruence].
    destruct (hex.fromHexChar q) as [b|] eqn:Eb; [|congruence].
    pose proof (fromHexChar_lt _ _ Ea) as Ha. pose proof (fromHexChar_lt _ _ Eb) as Hb.
    cbn [hex.Decode]. rewrite Ea, Eb.
    destruct (hex.Decode rest) as [dst err]. cbn [fst] in *.
    rewrite EncodeToString_cons, IH.
    rewrite nibbles_value, to_N_byte_of_N by (try rewrite nibbles_value; lia).
    destruct (nibbles_split a b Ha Hb) as [-> ->].
    rewrite (lower_digit p a Ea), (lower_digit q b Eb). reflexivity.
Qed.

(** X2. The round trip from text: for an input of hexadecimal digits (after
    an optional [0x] prefix), [bytesToHex] of the decoded bytes is the
    input without the prefix, with a zero in front when its length is odd,
    in lower case. *)
Theorem hexToBytes_bytesToHex (s body : string) :
  Spec.stripped s body -> Spec.all_hex body ->
  bytesToHex (fst (hexToBytes s)) = lower_string (padded body).
Proof.
  intros Hs Hh. rewrite (hexToBytes_stripped _ _ Hs). unfold bytesToHex.
  apply EncodeToString_Decode; [apply even_length_padded | now apply all_hex_padded].
Qed.

Lemma hexToBytes_bytesToHex_witness :
  bytesToHex (fst (hexToBytes "0xD02")) = lower_string (padded "D02").
Proof.
  apply (hexToBytes_bytesToHex "0xD02" "D02").
  - apply (Spec.stripped_prefix "D02"). discriminate.
  - unfold Spec.all_hex, Spec.hex_char. simpl.
    repeat (constructor; [repeat (first [left; reflexivity | right])|]). constructor.
Defined.

Lemma Decode_partial (t pre post : string) (c : ascii) :
  t = pre ++ String c post ->
  Spec.all_hex pre -> ~ Spec.hex_char c ->
  exists bs,
    hex.Decode t = (bs, Some (hex.InvalidByteError c)) /\
    length bs = (String.length pre / 2)%nat /\
    hex.Decode (string_take (2 * (String.length pre / 2)) pre) = (bs, None).
Proof.
  revert pre.
  induction t as [|x|p q rest IH] using string_pair_ind; intros pre Hs Hh Hc.
  - destruct pre; discriminate Hs.
  - apply fromHexChar_None in Hc.
    destruct pre as [|y [|z pre]]; simpl in Hs; try discriminate Hs.
    injection Hs as <- _. exists []. simpl. now rewrite Hc.
  - destruct pre as [|y [|z pre]]; simpl in Hs.
    + injection Hs as <- _. apply fromHexChar_None in Hc.
      exists []. simpl. now rewrite Hc.
    + injection Hs as <- <- _.
      apply Forall_cons_1 in Hh as [Hy _]. apply fromHexChar_hex_char in Hy.
      apply fromHexChar_None in Hc. exists []. simpl.
      destruct (hex.fromHexChar p); [|congruence]. now rewrite Hc.
    + injection Hs as <- <- Hr.
      unfold Spec.all_hex in Hh. simpl in Hh.
      apply Forall_cons_1 in Hh as [Hy Hh]. apply Forall_cons_1 in Hh as [Hz Hh].
      apply fromHexChar_hex_char in Hy, Hz.
      destruct (IH pre Hr Hh Hc) as (bs & Hd & Hl & Hp).
      destruct (hex.fromHexChar p) as [a|] eqn:Ea; [|congruence].
      destruct (hex.fromHexChar q) as [b|] eqn:Eb; [|congruence].
      exists (byte_of_N (N.lor (N.shiftl a 4) b) :: bs).
      simpl String.length.
      replace (S (S (String.length pre))) with (String.length pre + 1 * 2)%nat by lia.
      rewrite Nat.div_add by lia.
      replace (2 * (String.length pre / 2 + 1))%nat
        with (S (S (2 * (String.length pre / 2)))) by lia.
      cbn [hex.Decode string_take]. rewrite Ea, Eb, Hd, Hp.
      repeat split. cbn [length]. rewrite Hl. lia.
Qed.

(** X3. When a character outside [[0-9a-fA-F]] stops [hexToBytes], the
    error comes with the bytes decoded so far: the bytes of the complete
    pairs of digits in front of that character (counted after the prefix is
    removed and the padding zero added). *)
Theorem hexToBytes_partial (s body pre post : string) (c : ascii) :
  Spec.stripped s body ->
  padded body = pre ++ String c post ->
  Spec.all_hex pre -> ~ Spec.hex_char c ->
  exists bs,
    hexToBytes s = (bs, Some (hex.InvalidByteError c)) /\
    length bs = (String.length pre / 2)%nat /\
    hex.Decode (string_take (2 * (String.length pre / 2)) pre) = (bs, None).
Proof.
  intros Hs Hp Hh Hc. rewrite (hexToBytes_stripped _ _ Hs).
  now apply (Decode_partial _ pre post c).
Qed.

Lemma hexToBytes_partial_witness :
  exists bs,
    hexToBytes "0x0102zz" = (bs, Some (hex.InvalidByteError "z")) /\
    length bs = (String.length "0102" / 2)%nat /\
    hex.Decode (string_take (2 * (String.length "0102" / 2)) "0102") = (bs, None).
Proof.
  apply (hexToBytes_partial "0x0102zz" "0102zz" "0102" "z" "z").
  - apply (Spec.stripped_prefix "0102zz"). discriminate.
  - reflexivity.
  - unfold Spec.all_hex, Spec.hex_char. simpl.
    repeat (constructor; [repeat (first [left; reflexivity | right])|]). constructor.
  - unfold Spec.hex_char. simpl. intros H.
    repeat (destruct H as [H|H]; [discriminate H|]). exact H.
Defined.

(** ** The shape of the dump *)

Lemma Forall_string_app (P : ascii -> Prop) (a b : string) :
  Forall P (list_ascii_of_string a) -> Forall P (list_ascii_of_string b) ->
  Forall P (list_ascii_of_string (a ++ b)).
Proof. intros Ha Hb. rewrite list_ascii_app. apply Forall_app. now split. Qed.

Lemma upper_hex_printable (c : ascii) : Spec.upper_hex_char c -> printable_char c.
Proof.
  unfold Spec.upper_hex_char, printable_char. simpl. intros H.
  repeat (destruct H as [<-|H]; [vm_compute; split; discriminate|]). contradiction.
Qed.

Lemma GoInt_add_range (a b : Z) : GoInt.min_int <= GoInt.add a b <= GoInt.max_int.
Proof.
  unfold GoInt.add, GoInt.wrap, GoInt.min_int, GoInt.max_int.
  pose proof (Z.mod_pos_bound (a + b + 2 ^ 63) (2 ^ 64) ltac:(lia)). lia.
Qed.

Lemma Sprintf_04X_printable (n : Z) :
  GoInt.min_int <= n <= GoInt.max_int ->
  Forall printable_char (list_ascii_of_string (fmt.Sprintf_04X n)).
Proof.
  intros Hn. destruct (Z.ltb_spec n 0) as [Hneg|Hpos].
  - destruct (digits_loop_hex 63 (Z.abs_N n) "") as (ds & Hd & Hnum).
    { unfold GoInt.min_int in Hn.
      apply N.le_lt_trans with (2 ^ 63)%N; [lia|]. now vm_compute. }
    rewrite string_app_nil_r in Hd.
    unfold fmt.Sprintf_04X, fmt.Sprintf_0X, fmt.digits.
    replace (n <? 0) with true by (symmetry; apply Z.ltb_lt; lia).
    rewrite Hd.
    destruct (pad_zeros_numeral (4 - 1) ds (Z.abs_N n) Hnum) as (_ & Hup & _).
    simpl list_ascii_of_string. constructor; [vm_compute; split; discriminate|].
    eapply Forall_impl; [exact Hup | apply upper_hex_printable].
  - destruct (Sprintf_04X_address n) as (_ & Hup & _); [lia|].
    eapply Forall_impl; [exact Hup | apply upper_hex_printable].
Qed.

Lemma printable_check (s : string) :
  forallb (fun c => (32 <=? N_of_ascii c) && (N_of_ascii c <=? 126))%N
    (list_ascii_of_string s) = true ->
  Forall printable_char (list_ascii_of_string s).
Proof.
  induction (list_ascii_of_string s) as [|c l IH]; intros H; [constructor|].
  simpl in H. apply andb_prop in H as [Hc Hl].
  constructor; [|now apply IH].
  apply andb_prop in Hc as [H1 H2]. apply N.leb_le in H1, H2.
  unfold printable_char. lia.
Qed.

Lemma cell_length (data : list byte) (k j : nat) :
  String.length (Spec.cell data k j) = (3 + if (j =? 7)%nat then 1 else 0)%nat.
Proof.
  unfold Spec.cell. rewrite string_length_app.
  destruct (Sprintf_02X_byte (index data k)) as (_ & _ & Hl).
  destruct (k <? length data)%nat, (j =? 7)%nat;
    rewrite ?string_length_app, ?Hl; reflexivity.
Qed.

Lemma cell_printable (data : list byte) (k j : nat) :
  Forall printable_char (list_ascii_of_string (Spec.cell data k j)).
Proof.
  unfold Spec.cell. apply Forall_string_app.
  - destruct (k <? length data)%nat.
    + apply Forall_string_app; [|now apply printable_check].
      destruct (Sprintf_02X_byte (index data k)) as (_ & Hup & _).
      eapply Forall_impl; [exact Hup | apply upper_hex_printable].
    + now apply printable_check.
  - destruct (j =? 7)%nat; now apply printable_check.
Qed.

Lemma cells_length (data : list byte) (i : nat) :
  String.length (Spec.join (map (fun j => Spec.cell data (i + j) j) (seq 0 16)))
  = 49%nat.
Proof.
  cbn [seq map Spec.join fold_right].
  rewrite !string_length_app, !cell_length. reflexivity.
Qed.

Lemma cells_printable (data : list byte) (i : nat) :
  Forall printable_char
    (list_ascii_of_string
       (Spec.join (map (fun j => Spec.cell data (i + j) j) (seq 0 16)))).
Proof.
  generalize (seq 0 16). intros l.
  induction l as [|j l IH]; [constructor|].
  cbn [map Spec.join fold_right].
  apply Forall_string_app; [apply cell_printable | exact IH].
Qed.

Lemma N_of_ascii_of_byte (b : byte) : N_of_ascii (ascii_of_byte b) = Byte.to_N b.
Proof. rewrite <- to_N_byte_of_ascii. now rewrite byte_of_ascii_of_byte. Qed.

Lemma printable_is_printable (b : byte) : printable_char (Spec.printable b).
Proof.
  unfold Spec.printable, printable_char.
  destruct ((32 <=? Byte.to_N b) && (Byte.to_N b <=? 126))%N eqn:E.
  - apply andb_prop in E as [E1 E2]. apply N.leb_le in E1, E2.
    rewrite N_of_ascii_of_byte. lia.
  - vm_compute. split; discriminate.
Qed.

Lemma ascii_column_printable (l : list byte) :
  Forall printable_char
    (list_ascii_of_string (string_of_list_ascii (map Spec.printable l))).
Proof.
  rewrite list_ascii_of_string_of_list_ascii.
  induction l as [|b l IH]; constructor; [apply printable_is_printable | exact IH].
Qed.

Lemma ascii_column_length (l : list byte) :
  String.length (string_of_list_ascii (map Spec.printable l)) = length l.
Proof. induction l as [|b l IH]; simpl; [reflexivity | now rewrite IH]. Qed.

(** A row is printable characters and one newline at its end. *)
Lemma row_printable (data : list byte) (startAddr : Z) (i : nat) :
  exists text,
    Spec.row data startAddr i = text ++ Spec.newline /\
    Forall printable_char (list_ascii_of_string text).
Proof.
  exists (fmt.Sprintf_04X (GoInt.add startAddr (Z.of_nat i)) ++ ": "
            ++ Spec.join (map (fun j => Spec.cell data (i + j) j) (seq 0 16))
            ++ " |"
            ++ string_of_list_ascii (map Spec.printable (firstn 16 (skipn i data)))
            ++ "|").
  split.
  - unfold Spec.row. now rewrite !string_app_assoc.
  - apply Forall_string_app; [apply Sprintf_04X_printable, GoInt_add_range|].
    apply Forall_string_app; [now apply printable_check|].
    apply Forall_string_app; [apply cells_printable|].
    apply Forall_string_app; [now apply printable_check|].
    apply Forall_string_app; [apply ascii_column_printable|].
    now apply printable_check.
Qed.

(** X4. Whatever the bytes and the start address, the dump is made of
    printable ASCII characters (0x20 to 0x7E) and newlines only: no byte of
    the memory reaches the terminal as a control character. *)
Theorem FormatMemoryDump_printable (data : list byte) (startAddr : Z) :
  Forall (fun c => printable_char c \/ c = newline_char)
    (list_ascii_of_string (FormatMemoryDump data startAddr)).
Proof.
  rewrite FormatMemoryDump_rows. unfold Spec.format_dump.
  generalize (Spec.row_offsets (length data)). intros l.
  induction l as [|i l IH]; [constructor|].
  cbn [map Spec.join fold_right].
  apply Forall_string_app; [|exact IH].
  destruct (row_printable data startAddr i) as (text & -> & Ht).
  apply Forall_string_app.
  - eapply Forall_impl; [exact Ht | intros c Hc; now left].
  - simpl. constructor; [now right | constructor].
Qed.

Lemma count_char_app (c : ascii) (a b : string) :
  count_char c (a ++ b) = (count_char c a + count_char c b)%nat.
Proof. induction a as [|x a IH]; simpl; [reflexivity | rewrite IH; lia]. Qed.

Lemma count_newline_printable (s : string) :
  Forall printable_char (list_ascii_of_string s) -> count_char newline_char s = 0%nat.
Proof.
  induction s as [|x s IH]; intros Hs; [reflexivity|].
  simpl in Hs. apply Forall_cons_1 in Hs as [Hx Hs].
  simpl. rewrite (IH Hs).
  destruct (Ascii.eqb_spec x newline_char) as [->|_]; [|reflexivity].
  exfalso. revert Hx. vm_compute. intros [H _]. now apply H.
Qed.

(** X5. The dump has one line per started group of 16 bytes: the number of
    newlines in it is the length of the data divided by 16, rounded up, so
    empty data gives the empty dump. *)
Theorem FormatMemoryDump_lines (data : list byte) (startAddr : Z) :
  count_char newline_char (FormatMemoryDump data startAddr)
  = ((length data + 15) / 16)%nat /\
  FormatMemoryDump [] startAddr = "".
Proof.
  split; [|reflexivity].
  rewrite FormatMemoryDump_rows. unfold Spec.format_dump, Spec.row_offsets.
  assert (Hrows : forall l : list nat,
             count_char newline_char
               (Spec.join (map (Spec.row data startAddr)
                             (map (fun k => (16 * k)%nat) l)))
             = length l).
  { induction l as [|k l IH]; [reflexivity|].
    cbn [map length].
    change (Spec.join (?x :: ?r)) with (x ++ Spec.join r).
    rewrite count_char_app, IH.
    destruct (row_printable data startAddr (16 * k)) as (text & -> & Ht).
    rewrite count_char_app, (count_newline_printable text Ht). reflexivity. }
  rewrite Hrows. apply List.length_seq.
Qed.

(** X6. Alignment: when every row address is at most 0xFFFF, each row is 56
    characters (address, colon, the 16 column slots in two groups), then
    [|], one character per byte of the row, [|] and the newline; so the
    ASCII column starts at the same place in every row, also in a last row
    with fewer than 16 bytes. *)
Theorem FormatMemoryDump_aligned (data : list byte) (startAddr : Z) :
  0 <= startAddr -> startAddr + Z.of_nat (length data) <= 0x10000 ->
  FormatMemoryDump data startAddr
  = Spec.join (map (Spec.row data startAddr) (Spec.row_offsets (length data))) /\
  forall i,
    In i (Spec.row_offsets (length data)) ->
    exists left,
      Spec.row data startAddr i
      = left ++ "|"
          ++ string_of_list_ascii (map Spec.printable (firstn 16 (skipn i data)))
          ++ "|" ++ Spec.newline /\
      String.length left = 56%nat /\
      String.length (Spec.row data startAddr i)
      = (59 + Nat.min 16 (length data - i))%nat.
Proof.
  intros Hs Hl. split; [apply FormatMemoryDump_rows|].
  intros i Hi. apply row_offsets_lt in Hi.
  assert (Ha : 0 <= startAddr + Z.of_nat i <= 0xFFFF) by lia.
  destruct (Sprintf_04X_address (startAddr + Z.of_nat i)) as (_ & _ & H4 & _).
  { unfold GoInt.max_int. lia. }
  specialize (H4 ltac:(lia)).
  exists (fmt.Sprintf_04X (startAddr + Z.of_nat i) ++ ": "
            ++ Spec.join (map (fun j => Spec.cell data (i + j) j) (seq 0 16)) ++ " ").
  unfold Spec.row.
  rewrite GoInt_add_exact by (unfold GoInt.min_int, GoInt.max_int; lia).
  split; [now rewrite !string_app_assoc|].
  rewrite !string_length_app, H4, cells_length, ascii_column_length.
  rewrite length_take, length_drop.
  split; [reflexivity|]. simpl String.length. lia.
Qed.

Lemma FormatMemoryDump_aligned_witness :
  FormatMemoryDump [x41; x42] 0x0400
  = Spec.join (map (Spec.row [x41; x42] 0x0400) (Spec.row_offsets (length [x41; x42]))) /\
  forall i,
    In i (Spec.row_offsets (length [x41; x42])) ->
    exists left,
      Spec.row [x41; x42] 0x0400 i
      = left ++ "|"
          ++ string_of_list_ascii (map Spec.printable (firstn 16 (skipn i [x41; x42])))
          ++ "|" ++ Spec.newline /\
      String.length left = 56%nat /\
      String.length (Spec.row [x41; x42] 0x0400 i)
      = (59 + Nat.min 16 (length [x41; x42] - i))%nat.
Proof.
  apply (FormatMemoryDump_aligned [x41; x42] 0x0400).
  - lia.
  - simpl. lia.
Defined.

(** ** The envelope, seen from the commands *)

Section EnvelopeUse.
Context `{Runtime}.

(** X7. [parseResponse] fails in one case only, when the body cannot be
    read; a body that is read gives a response with that body and the
    status code, whether it is empty, JSON or anything else: a body that
    does not decode is not an error. *)
Theorem parseResponse_fails_on_read_only (resp : http_Response) :
  (forall err, http_Body resp = Err err ->
               parseResponse resp = Err ("failed to read response body: " ++ err)) /\
  (forall body, http_Body resp = Ok body ->
                exists r, parseResponse resp = Ok r /\
                          RawBody r = body /\
                          StatusCode r = http_StatusCode resp).
Proof.
  split.
  - intros err He. unfold parseResponse. now rewrite He.
  - intros body Hb.
    destruct body as [|b body].
    + destruct (parseResponse_decoded resp [] Hb (or_introl eq_refl))
        as (r & Hr & HR & HS & _).
      exists r. auto.
    + destruct (json_Unmarshal (b :: body)) eqn:E.
      * destruct (parseResponse_decoded resp (b :: body) Hb) as (r & Hr & HR & HS & _).
        { right. congruence. }
        exists r. auto.
      * eexists.
        split; [apply parseResponse_opaque; [exact Hb | discriminate | exact E]|].
        split; reflexivity.
Qed.

Lemma HasErrors_decoded (resp : http_Response) (body : list byte) (r : Response) :
  http_Body resp = Ok body ->
  body = [] \/ json_Unmarshal body <> None ->
  parseResponse resp = Ok r ->
  (HasErrors r = true <->
   ~ success_status (http_StatusCode resp) \/
   body_errors body (json_Unmarshal body) <> []).
Proof.
  intros Hb Hd Hr.
  destruct (parseResponse_decoded resp body Hb Hd) as (r' & Hr' & _ & _ & He & _).
  rewrite Hr in Hr'. injection Hr' as <-.
  unfold HasErrors, success_status. rewrite He.
  destruct ((http_StatusCode resp <? 200) || (300 <=? http_StatusCode resp)) eqn:E.
  - apply orb_prop in E.
    assert (Hbad : ~ 200 <= http_StatusCode resp < 300)
      by (destruct E as [E|E]; [apply Z.ltb_lt in E | apply Z.leb_le in E]; lia).
    split; [now left|]. intros _.
    destruct (body_errors body (json_Unmarshal body)); reflexivity.
  - apply orb_false_elim in E as [E1 E2].
    apply Z.ltb_ge in E1. apply Z.leb_gt in E2.
    destruct (body_errors body (json_Unmarshal body)) as [|e l]; simpl.
    + split; [discriminate|]. intros [Hbad|Hne]; [exfalso; apply Hbad; lia | congruence].
    + split; [intros _; now right | reflexivity].
Qed.

(** X8. For a body that is empty or decodes, [HasErrors] holds exactly when
    the status is outside [200,300) or the body brought at least one error
    string: this is the test every command makes before it reports a
    success. *)
Theorem HasErrors_iff (resp : http_Response) (body : list byte) (r : Response) :
  http_Body resp = Ok body ->
  body = [] \/ json_Unmarshal body <> None ->
  parseResponse resp = Ok r ->
  (HasErrors r = true <->
   ~ success_status (http_StatusCode resp) \/
   body_errors body (json_Unmarshal body) <> []).
Proof. apply HasErrors_decoded. Qed.

(** X9. The payload keeps the fields of the body: for every key other than
    [errors], the payload of a decoded body has what the JSON object has,
    so the accessors read the fields of the body. *)
Theorem payload_fields (resp : http_Response) (body : list byte)
  (jsonData : gmap string json) (r : Response) (key : string) :
  http_Body resp = Ok body -> body <> [] ->
  json_Unmarshal body = Some jsonData ->
  parseResponse resp = Ok r ->
  key <> "errors" ->
  Data r !! key = jsonData !! key /\
  (forall s, jsonData !! key = Some (JString s) -> GetString r key = s) /\
  (forall f, jsonData !! key = Some (JNumber f) -> GetInt r key = int_of_float64 f) /\
  (jsonData !! key = None -> GetString r key = "" /\ GetInt r key = 0).
Proof.
  intros Hb Hne Hd Hr Hk.
  destruct (parseResponse_decoded resp body Hb) as (r' & Hr' & _ & _ & _ & HD).
  { right. congruence. }
  rewrite Hr in Hr'. injection Hr' as <-.
  destruct body as [|b body]; [congruence|]. rewrite Hd in HD.
  assert (HL : Data r !! key = jsonData !! key).
  { rewrite HD. destruct (jsonData !! "errors") as [[]|]; try reflexivity.
    now apply lookup_delete_ne. }
  unfold GetString, GetInt. rewrite HL.
  split; [reflexivity|]. split; [|split].
  - intros s ->. reflexivity.
  - intros f ->. reflexivity.
  - intros ->. split; reflexivity.
Qed.

End EnvelopeUse.

Lemma HasErrors_iff_witness :
  HasErrors (mkResponse ["HTTP 404: 404 Not Found"] ∅ 404 []) = true <->
  ~ success_status 404 \/ body_errors [] (Reference.Unmarshal []) <> [].
Proof.
  apply (@HasErrors_iff Reference.runtime
           (mkHTTPResponse 404 "404 Not Found" (Ok [])) []).
  - reflexivity.
  - left. reflexivity.
  - reflexivity.
Defined.

Lemma payload_fields_witness :
  let body :=
    list_byte_of_string
      ("{" ++ Reference.q "product" ++ ":" ++ Reference.q "Ultimate 64" ++ "}") in
  let jsonData : gmap string json := {[ "product" := JString "Ultimate 64" ]} in
  let r := mkResponse [] jsonData 200 body in
  Data r !! "product" = jsonData !! "product" /\
  (forall s, jsonData !! "product" = Some (JString s) -> GetString r "product" = s) /\
  (forall f, jsonData !! "product" = Some (JNumber f) ->
             @GetInt Reference.runtime r "product" = @int_of_float64 Reference.runtime f) /\
  (jsonData !! "product" = None ->
   GetString r "product" = "" /\ @GetInt Reference.runtime r "product" = 0).
Proof.
  intros body jsonData r.
  apply (@payload_fields Reference.runtime (mkHTTPResponse 200 "200 OK" (Ok body))
           body jsonData r "product").
  - reflexivity.
  - discriminate.
  - vm_compute. reflexivity.
  - vm_compute. reflexivity.
  - discriminate.
Defined.


(** ** [strconv.ParseInt] in base 16 and the address of the dump *)

Lemma ParseUint16_loop_step (ch : ascii) (s : string) (n : N) :
  ParseUint16_loop (String ch s) n
  = match hex.fromHexChar ch with
    | None => (0%N, Some ErrSyntax)
    | Some d =>
        if ((2 ^ 64 - 1) / 16 + 1 <=? n)%N then ((2 ^ 64 - 1)%N, Some ErrRange)
        else if (2 ^ 64 - 1 <? n * 16 + d)%N then ((2 ^ 64 - 1)%N, Some ErrRange)
        else ParseUint16_loop s (n * 16 + d)%N
    end.
Proof. destruct ch as [[] [] [] [] [] [] [] []]; reflexivity. Qed.

Lemma ParseUint16_loop_invalid (s : string) (n : N) :
  ~ Spec.all_hex s -> snd (ParseUint16_loop s n) <> None.
Proof.
  revert n. induction s as [|ch s IH]; intros n Hs.
  - exfalso. apply Hs. constructor.
  - rewrite ParseUint16_loop_step.
    destruct (hex.fromHexChar ch) as [d|] eqn:E; [|discriminate].
    destruct ((2 ^ 64 - 1) / 16 + 1 <=? n)%N; [discriminate|].
    destruct (2 ^ 64 - 1 <? n * 16 + d)%N; [discriminate|].
    apply IH. intros Hh. apply Hs. constructor; [|exact Hh].
    apply fromHexChar_hex_char. congruence.
Qed.

Lemma base16_from_bounds (s : string) (acc v : N) :
  Spec.base16_from acc s = Some v ->
  (acc * 16 ^ N.of_nat (String.length s) <= v
   < (acc + 1) * 16 ^ N.of_nat (String.length s))%N.
Proof.
  revert acc. induction s as [|c s IH]; intros acc Hv.
  - simpl in *. injection Hv as <-. lia.
  - simpl in Hv. destruct (hex.fromHexChar c) as [d|] eqn:E; [|discriminate Hv].
    pose proof (fromHexChar_lt _ _ E) as Hd.
    specialize (IH _ Hv). simpl String.length.
    rewrite Nat2N.inj_succ, N.pow_succ_r'. nia.
Qed.

Lemma ParseUint16_loop_value (s : string) (n v : N) :
  Spec.base16_from n s = Some v -> (v < 2 ^ 64)%N ->
  ParseUint16_loop s n = (v, None).
Proof.
  revert n. induction s as [|c s IH]; intros n Hv Hmax.
  - simpl in *. congruence.
  - rewrite ParseUint16_loop_step. simpl in Hv.
    destruct (hex.fromHexChar c) as [d|] eqn:E; [|discriminate Hv].
    pose proof (base16_from_bounds _ _ _ Hv) as [Hlo _].
    assert (Hp : (1 <= 16 ^ N.of_nat (String.length s))%N)
      by (pose proof (N.pow_nonzero 16 (N.of_nat (String.length s)) ltac:(lia)); lia).
    assert (Hn : (16 * n + d < 2 ^ 64)%N) by nia.
    change (2 ^ 64)%N with 18446744073709551616%N in *.
    change ((18446744073709551616 - 1) / 16 + 1)%N with 1152921504606846976%N.
    change (18446744073709551616 - 1)%N with 18446744073709551615%N.
    replace (1152921504606846976 <=? n)%N with false
      by (symmetry; apply N.leb_gt; lia).
    replace (18446744073709551615 <? n * 16 + d)%N with false
      by (symmetry; apply N.ltb_ge; lia).
    apply IH; [|exact Hmax]. now replace (n * 16 + d)%N with (16 * n + d)%N by lia.
Qed.

Lemma ParseInt16_error (c0 : ascii) (rest : string) :
  snd (ParseUint16 (unsigned_part (String c0 rest))) <> None ->
  snd (ParseInt16 (String c0 rest)) <> None.
Proof.
  unfold ParseInt16, unsigned_part.
  destruct (Ascii.eqb c0 "+"), (Ascii.eqb c0 "-"); cbn [orb negb andb];
    match goal with
    | |- snd (ParseUint16 ?t) <> None -> _ =>
        destruct (ParseUint16 t) as [un [[]|]]; cbn [snd]; intros Hne;
        try congruence; try discriminate;
        repeat match goal with
               | |- context [if ?b then _ else _] => destruct b
               end; discriminate
    end.
Qed.

(** X10. The address of the first row of the dump of [read-mem]: an
    argument of 1 to 15 hexadecimal digits is read in base 16; an argument
    that, after an optional sign, has any other character is read as 0, so
    with a [0x] or [$] prefix the dump counts its rows from 0000 while the
    request carries the argument as typed. *)
Theorem dump_address_spec (address : string) :
  (forall v, Spec.base16 address = Some v ->
             (1 <= String.length address <= 15)%nat ->
             dump_address address = Z.of_N v) /\
  (~ Spec.all_hex (unsigned_part address) -> dump_address address = 0) /\
  dump_address "d020" = 0xD020 /\
  dump_address "0x0400" = 0 /\
  dump_address "$0400" = 0.
Proof.
  split; [|split; [|repeat split]].
  - intros v Hv Hl. unfold dump_address, ParseInt16.
    destruct address as [|c0 rest]; [simpl in Hl; lia|].
    assert (Hh : Spec.all_hex (String c0 rest)) by (eapply base16_from_Some, Hv).
    apply Forall_cons_1 in Hh as [Hc _].
    replace (Ascii.eqb c0 "+") with false
      by (symmetry; apply Ascii.eqb_neq; intros ->; revert Hc; unfold Spec.hex_char;
          simpl; intros Hc; repeat (destruct Hc as [Hc|Hc]; [discriminate Hc|]);
          exact Hc).
    replace (Ascii.eqb c0 "-") with false
      by (symmetry; apply Ascii.eqb_neq; intros ->; revert Hc; unfold Spec.hex_char;
          simpl; intros Hc; repeat (destruct Hc as [Hc|Hc]; [discriminate Hc|]);
          exact Hc).
    pose proof (base16_from_bounds _ _ _ Hv) as [_ Hub].
    assert (Hsmall : (v < 2 ^ 60)%N).
    { eapply N.lt_le_trans; [exact Hub|]. rewrite N.mul_1_l.
      change (2 ^ 60)%N with (16 ^ 15)%N. apply N.pow_le_mono_r; lia. }
    change (2 ^ 60)%N with 1152921504606846976%N in Hsmall.
    unfold ParseUint16.
    rewrite (ParseUint16_loop_value _ 0 v Hv)
      by (change (2 ^ 64)%N with 18446744073709551616%N; lia).
    cbn [negb andb].
    change (2 ^ 63)%N with 9223372036854775808%N.
    replace (9223372036854775808 <=? v)%N with false
      by (symmetry; apply N.leb_gt; lia).
    reflexivity.
  - intros Hbad. unfold dump_address.
    destruct address as [|c0 rest]; [exfalso; apply Hbad; constructor|].
    pose proof (ParseInt16_error c0 rest) as He.
    destruct (ParseInt16 (String c0 rest)) as [addr [e|]]; [reflexivity|].
    exfalso. apply He; [|reflexivity]. unfold ParseUint16.
    destruct (unsigned_part (String c0 rest)) eqn:Eu; [discriminate|].
    rewrite <- Eu in *. now apply ParseUint16_loop_invalid.
Qed.

(** ** The commands *)

Lemma value_bind {A B} (m : M A) (f : A -> M B) :
  value (bind m f) = value (f (value m)).
Proof.
  unfold value, bind. destruct m as [a w]. simpl.
  destruct (f a) as [b w']. reflexivity.
Qed.

Lemma issued_bind_quiet {A B} (m : M A) (f : A -> M B) :
  (forall a, issued (f a) = []) -> issued (bind m f) = issued m.
Proof. intros Hf. rewrite issued_bind, Hf. apply app_nil_r. Qed.

Section Handlers.
Context `{Runtime}.

Lemma value_roundtrip_responded (c : Client) (req : Request) (resp : http_Response) :
  HTTPClient c req = Responded resp ->
  value (roundtrip c req) = parseResponse resp.
Proof. intros Hc. unfold roundtrip, value. simpl. now rewrite Hc. Qed.

Lemma value_roundtrip_failed (c : Client) (req : Request) (err : string) :
  HTTPClient c req = TransportFailed err ->
  value (roundtrip c req) = Err ("HTTP request failed: " ++ err).
Proof. intros Hc. unfold roundtrip, value. simpl. now rewrite Hc. Qed.

(** X11. [streams start] with a valid stream reports what the device
    answered: a transport failure is reported as [Failed to start stream];
    an answer with a status outside [200,300), or with error strings in its
    body, is reported as [API returned errors] with a non-empty list and
    never as a success; an answer in [200,300) without errors is reported
    as [Stream started], with the destination [ip:port] where the port is
    11000, 11001 or 11002 for video, audio and debug. *)
Theorem streamsStartCmd_outcome (c : Client) (stream ip : string) :
  stream = "video" \/ stream = "audio" \/ stream = "debug" ->
  let req := mkRequest MethodPut ("/v1/streams/" ++ stream ++ ":start")
               {[ "ip" := ip ]} None None in
  (forall err,
      HTTPClient c req = TransportFailed err ->
      value (streamsStartCmd c [stream; ip])
      = FormatterError "Failed to start stream" ["HTTP request failed: " ++ err]) /\
  (forall resp body,
      HTTPClient c req = Responded resp ->
      http_Body resp = Ok body ->
      body = [] \/ json_Unmarshal body <> None ->
      (~ success_status (http_StatusCode resp) \/
       body_errors body (json_Unmarshal body) <> [] ->
       exists errs,
         errs <> [] /\
         value (streamsStartCmd c [stream; ip])
         = FormatterError "API returned errors" errs) /\
      (success_status (http_StatusCode resp) ->
       body_errors body (json_Unmarshal body) = [] ->
       value (streamsStartCmd c [stream; ip])
       = FormatterSuccess "Stream started"
           (<["stream" := VString stream]>
              (<["destination" := VString (ip ++ ":" ++ stream_port stream)]> ∅)))).
Proof.
  intros Hs req.
  assert (Hcmd : forall r,
             value (roundtrip c req) = r ->
             value (streamsStartCmd c [stream; ip])
             = match r with
               | Err err => FormatterError "Failed to start stream" [err]
               | Ok resp =>
                   if HasErrors resp
                   then FormatterError "API returned errors" (Errors resp)
                   else FormatterSuccess "Stream started"
                          (<["stream" := VString stream]>
                             (<["destination" :=
                                  VString (ip ++ ":" ++ stream_port stream)]> ∅))
               end).
  { intros r Hr. unfold streamsStartCmd.
    replace (lookup_bool _ stream) with true
      by (destruct Hs as [ -> | [ -> | -> ] ]; reflexivity).
    cbn [negb]. rewrite value_bind. unfold StreamsStart, Put. fold req. rewrite Hr.
    destruct r as [resp|err]; [|reflexivity].
    destruct (HasErrors resp); [reflexivity|].
    destruct Hs as [ -> | [ -> | -> ] ]; reflexivity. }
  split.
  - intros err Hc. now rewrite (Hcmd _ (value_roundtrip_failed c req err Hc)).
  - intros resp body Hc Hb Hd.
    destruct (parseResponse_decoded resp body Hb Hd) as (r & Hr & _).
    pose proof (HasErrors_decoded resp body r Hb Hd Hr) as Hiff.
    rewrite (Hcmd (Ok r)) by (rewrite <- Hr; now apply value_roundtrip_responded).
    split.
    + intros Hbad. apply Hiff in Hbad. rewrite Hbad.
      exists (Errors r). split; [|reflexivity].
      unfold HasErrors in Hbad. destruct (Errors r); [discriminate Hbad | discriminate].
    + intros Hok Hnone.
      destruct (HasErrors r) eqn:E; [|reflexivity].
      destruct (proj1 Hiff eq_refl) as [E'|E']; contradiction.
Qed.

Lemma streamsStopCmd_valid (c : Client) (stream : string) :
  stream = "video" \/ stream = "audio" \/ stream = "debug" ->
  issued (streamsStopCmd c [stream])
  = [mkRequest MethodPut ("/v1/streams/" ++ stream ++ ":stop") ∅ None None].
Proof.
  intros Hs. unfold streamsStopCmd.
  replace (lookup_bool _ stream) with true
    by (destruct Hs as [ -> | [ -> | -> ] ]; reflexivity).
  cbn [negb]. rewrite issued_bind_quiet; [reflexivity|].
  intros [resp|err]; [destruct (HasErrors resp)|]; reflexivity.
Qed.

(** X12. [streams stop] makes the test of [streams start]: a stream name
    other than [video], [audio] and [debug] ends the command with [Invalid
    stream type] and no request; a valid name issues exactly one PUT to
    [/v1/streams/<stream>:stop], without parameters. *)
Theorem streamsStopCmd_validation (c : Client) (stream : string) :
  (stream <> "video" -> stream <> "audio" -> stream <> "debug" ->
   issued (streamsStopCmd c [stream]) = [] /\
   value (streamsStopCmd c [stream])
   = FormatterError "Invalid stream type"
       ["Stream '" ++ stream ++ "' is not valid";
        "Valid streams: video, audio, debug"]) /\
  (stream = "video" \/ stream = "audio" \/ stream = "debug" ->
   issued (streamsStopCmd c [stream])
   = [mkRequest MethodPut ("/v1/streams/" ++ stream ++ ":stop") ∅ None None]).
Proof.
  split.
  - intros Hv Ha Hd. unfold streamsStopCmd, lookup_bool.
    rewrite !lookup_insert_ne, lookup_empty by congruence.
    split; reflexivity.
  - apply streamsStopCmd_valid.
Qed.

Lemma drivesSetModeCmd_valid (c : Client) (drive mode : string) :
  mode = "1541" \/ mode = "1571" \/ mode = "1581" ->
  issued (drivesSetModeCmd c [drive; mode])
  = [mkRequest MethodPut ("/v1/drives/" ++ drive ++ ":set_mode")
       {[ "mode" := mode ]} None None].
Proof.
  intros Hs. unfold drivesSetModeCmd.
  replace (lookup_bool _ mode) with true
    by (destruct Hs as [ -> | [ -> | -> ] ]; reflexivity).
  cbn [negb]. rewrite issued_bind_quiet; [reflexivity|].
  intros [resp|err]; [destruct (HasErrors resp)|]; reflexivity.
Qed.

(** X13. [drives set-mode] lets the three emulation modes through and
    nothing else: a mode other than [1541], [1571] and [1581] ends the
    command with [Invalid mode] and without a call of the client, for every
    drive. With a valid mode the command calls [Put] once, with the
    endpoint text [/v1/drives/<drive>:set_mode] and the one parameter
    [mode]. The drive itself is not checked: when [url.Parse] or
    [http.NewRequest] refuses the URL this text gives, nothing is sent and
    the command ends with [Failed to set drive mode] and the reason. *)
Theorem drivesSetModeCmd_validation (c : Client) (drive mode : string) :
  (mode <> "1541" -> mode <> "1571" -> mode <> "1581" ->
   issued (drivesSetModeCmd c [drive; mode]) = [] /\
   value (drivesSetModeCmd c [drive; mode])
   = FormatterError "Invalid mode"
       ["Mode '" ++ mode ++ "' is not valid"; "Valid modes: 1541, 1571, 1581"]) /\
  (mode = "1541" \/ mode = "1571" \/ mode = "1581" ->
   let req := mkRequest MethodPut ("/v1/drives/" ++ drive ++ ":set_mode")
                {[ "mode" := mode ]} None None in
   issued (drivesSetModeCmd c [drive; mode]) = [req] /\
   (forall err,
       HTTPClient c req = URLInvalid err ->
       sent c (drivesSetModeCmd c [drive; mode]) = [] /\
       value (drivesSetModeCmd c [drive; mode])
       = FormatterError "Failed to set drive mode" ["invalid URL: " ++ err]) /\
   (forall err,
       HTTPClient c req = RequestInvalid err ->
       sent c (drivesSetModeCmd c [drive; mode]) = [] /\
       value (drivesSetModeCmd c [drive; mode])
       = FormatterError "Failed to set drive mode"
           ["failed to create request: " ++ err]) /\
   (leaves c req = true -> sent c (drivesSetModeCmd c [drive; mode]) = [req])).
Proof.
  split.
  - intros H1 H2 H3. unfold drivesSetModeCmd, lookup_bool.
    rewrite !lookup_insert_ne, lookup_empty by congruence.
    split; reflexivity.
  - intros Hm req.
    assert (Hi : issued (drivesSetModeCmd c [drive; mode]) = [req])
      by (apply drivesSetModeCmd_valid; exact Hm).
    assert (Hv : forall err,
               value (roundtrip c req) = Err err ->
               value (drivesSetModeCmd c [drive; mode])
               = FormatterError "Failed to set drive mode" [err]).
    { intros err Hr. unfold drivesSetModeCmd.
      replace (lookup_bool _ mode) with true
        by (destruct Hm as [ -> | [ -> | -> ] ]; reflexivity).
      cbn [negb]. rewrite value_bind.
      unfold DrivesSetMode, Put. fold req. rewrite Hr. reflexivity. }
    split; [exact Hi|].
    unfold sent. rewrite Hi. cbn [List.filter]. unfold leaves.
    split; [|split].
    + intros err Hc. rewrite Hc. split; [reflexivity|].
      apply Hv. unfold roundtrip, value. simpl. now rewrite Hc.
    + intros err Hc. rewrite Hc. split; [reflexivity|].
      apply Hv. unfold roundtrip, value. simpl. now rewrite Hc.
    + intros ->. reflexivity.
Qed.

(** X14. [files create-d64] checks nothing and always calls [Put] once,
    with the endpoint text [/v1/files/<path>:create_d64]. The [tracks]
    parameter it hands over is 35 when the flag is not given, the given
    count when it is positive (any positive count, not only 35 and 40),
    and is left out for a count of 0 or less; [diskname] is handed over
    only for a non-empty name; the command adds no other parameter. The
    path is not checked: when [url.Parse] or [http.NewRequest] refuses the
    URL this text gives, nothing is sent and the command ends with
    [Failed to create D64 image] and the reason. *)
Theorem filesCreateD64Cmd_request (c : Client) (path : string) (flags : D64Flags) :
  exists params,
    let req := mkRequest MethodPut ("/v1/files/" ++ path ++ ":create_d64")
                 params None None in
    issued (filesCreateD64Cmd c [path] flags) = [req] /\
    params !! "tracks"
    = match d64_tracks flags with
      | None => Some "35"
      | Some n => if 0 <? n then Some (strconv.Itoa n) else None
      end /\
    params !! "diskname"
    = match d64_name flags with
      | Some name => if String.eqb name "" then None else Some name
      | None => None
      end /\
    (forall k, k <> "tracks" -> k <> "diskname" -> params !! k = None) /\
    (forall err,
        HTTPClient c req = URLInvalid err ->
        sent c (filesCreateD64Cmd c [path] flags) = [] /\
        value (filesCreateD64Cmd c [path] flags)
        = FormatterError "Failed to create D64 image" ["invalid URL: " ++ err]) /\
    (forall err,
        HTTPClient c req = RequestInvalid err ->
        sent c (filesCreateD64Cmd c [path] flags) = [] /\
        value (filesCreateD64Cmd c [path] flags)
        = FormatterError "Failed to create D64 image"
            ["failed to create request: " ++ err]) /\
    (leaves c req = true -> sent c (filesCreateD64Cmd c [path] flags) = [req]).
Proof.
  assert (Hi : issued (filesCreateD64Cmd c [path] flags)
               = issued (FilesCreateD64 c path (default 35 (d64_tracks flags))
                           (default "" (d64_name flags)))).
  { unfold filesCreateD64Cmd. apply issued_bind_quiet.
    intros [resp|err]; [destruct (HasErrors resp)|]; reflexivity. }
  assert (Hv : forall err,
             value (FilesCreateD64 c path (default 35 (d64_tracks flags))
                      (default "" (d64_name flags))) = Err err ->
             value (filesCreateD64Cmd c [path] flags)
             = FormatterError "Failed to create D64 image" [err]).
  { intros err Hr. unfold filesCreateD64Cmd. rewrite value_bind, Hr. reflexivity. }
  unfold sent. rewrite Hi. clear Hi. revert Hv.
  unfold FilesCreateD64, Put. rewrite issued_roundtrip.
  intros Hv. eexists. cbv zeta.
  split; [reflexivity|].
  split; [|split; [|split; [|split; [|split]]]].
  4:{ intros err Hc. cbn [List.filter]. unfold leaves. rewrite Hc.
      split; [reflexivity|]. apply Hv. unfold roundtrip, value. cbn [fst].
      now rewrite Hc. }
  4:{ intros err Hc. cbn [List.filter]. unfold leaves. rewrite Hc.
      split; [reflexivity|]. apply Hv. unfold roundtrip, value. cbn [fst].
      now rewrite Hc. }
  4:{ intros Hl. cbn [List.filter]. now rewrite Hl. }
  all: clear Hv;
    destruct flags as [[n|] [name|]]; cbn [d64_tracks d64_name default from_option id];
    change (0 <? 35) with true; cbv iota;
    try change (String.eqb "" "") with true;
    try destruct (0 <? n); try destruct (String.eqb name ""); cbn [negb];
    try (intros k Hk1 Hk2);
    rewrite ?lookup_insert_ne by congruence;
    rewrite ?lookup_insert_eq, ?lookup_empty; reflexivity.
Qed.

End Handlers.

(** The two commands with an argument that is no URL path: the drive [%zz]
    and the path [/usb0/%zz.d64] are handed to [Put], nothing is sent, and
    the refusal of [url.Parse] is what the command reports; the drive [8]
    goes out. *)
Example unchecked_arguments :
  let c := Reference.parsing (mkHTTPResponse 200 "200 OK" (Ok [])) in
  sent c (@drivesSetModeCmd Reference.runtime c ["%zz"; "1541"]) = [] /\
  value (@drivesSetModeCmd Reference.runtime c ["%zz"; "1541"])
  = FormatterError "Failed to set drive mode"
      ["invalid URL: parse " ++ Reference.q "http://localhost:80/v1/drives/%zz:set_mode"
         ++ ": invalid URL escape " ++ Reference.q "%zz"] /\
  sent c (@drivesSetModeCmd Reference.runtime c ["8"; "1541"])
  = [mkRequest MethodPut "/v1/drives/8:set_mode" {[ "mode" := "1541" ]} None None] /\
  value (@drivesSetModeCmd Reference.runtime c ["8"; "1541"])
  = FormatterSuccess "Drive mode changed"
      (<["drive" := VString "8"]> (<["mode" := VString "1541"]> ∅)) /\
  sent c (@filesCreateD64Cmd Reference.runtime c ["/usb0/%zz.d64"] (mkD64Flags None None))
  = [] /\
  value (@filesCreateD64Cmd Reference.runtime c ["/usb0/%zz.d64"] (mkD64Flags None None))
  = FormatterError "Failed to create D64 image"
      ["invalid URL: parse "
         ++ Reference.q "http://localhost:80/v1/files//usb0/%zz.d64:create_d64"
         ++ ": invalid URL escape " ++ Reference.q "%zz"].
Proof. repeat split. Qed.

Section MemoryCommands.
Context `{Runtime}.

(** X15. [machine read-mem] issues one GET to [/v1/machine:readmem] with the
    address as typed and the length (256 when the flag is not given; no
    [length] parameter for a length of 0 or less). When the answer has a
    status in [200,300) and its body brings no error strings (the binary
    body of a read, or an empty body), the text output is the dump of
    exactly the bytes received, counted from the address of the argument,
    under a header with their number; with [--json] the data is the
    lower-case hexadecimal text of those bytes, which [hexToBytes] reads
    back. *)
Theorem machineReadMemCmd_output (c : Client) (address : string)
  (flag_length : option Z) (resp : http_Response) (body : list byte) :
  let length := default 256 flag_length in
  let params : gmap string string :=
    if 0 <? length then <["length" := strconv.Itoa length]> {[ "address" := address ]}
    else {[ "address" := address ]} in
  let req := mkRequest MethodGet "/v1/machine:readmem" params None None in
  HTTPClient c req = Responded resp ->
  http_Body resp = Ok body ->
  success_status (http_StatusCode resp) ->
  body_errors body (json_Unmarshal body) = [] ->
  (forall jsonOut, issued (machineReadMemCmd c jsonOut [address] flag_length) = [req]) /\
  value (machineReadMemCmd c false [address] flag_length)
  = ReadMemDump
      ("Memory dump from $" ++ address ++ " ("
         ++ fmt.Sprintf_d (Z.of_nat (List.length body)) ++ " bytes)")
      (FormatMemoryDump body (dump_address address)) /\
  value (machineReadMemCmd c true [address] flag_length)
  = ReadMemData
      (<["address" := VString ("$" ++ address)]>
         (<["length" := VInt (Z.of_nat (List.length body))]>
            (<["data" := VString (bytesToHex body)]> ∅))) /\
  hexToBytes (bytesToHex body) = (body, None).
Proof.
  intros length params req Hc Hb Hok Hnone.
  assert (Hr : exists r, parseResponse resp = Ok r /\ RawBody r = body /\
                         HasErrors r = false).
  { destruct body as [|b body'] eqn:Ebody.
    - destruct (parseResponse_decoded resp [] Hb (or_introl eq_refl))
        as (r & Hr & HR & _ & He & _).
      exists r. repeat split; [exact Hr | exact HR|].
      unfold HasErrors. rewrite He. unfold success_status in Hok.
      replace (http_StatusCode resp <? 200) with false
        by (symmetry; apply Z.ltb_ge; lia).
      replace (300 <=? http_StatusCode resp) with false
        by (symmetry; apply Z.leb_gt; lia).
      reflexivity.
    - destruct (json_Unmarshal (b :: body')) eqn:E.
      + destruct (parseResponse_decoded resp (b :: body') Hb)
          as (r & Hr & HR & _ & He & _).
        { right. congruence. }
        exists r. repeat split; [exact Hr | exact HR|].
        unfold HasErrors. rewrite He. unfold success_status in Hok.
        replace (http_StatusCode resp <? 200) with false
          by (symmetry; apply Z.ltb_ge; lia).
        replace (300 <=? http_StatusCode resp) with false
          by (symmetry; apply Z.leb_gt; lia).
        cbn [orb]. now rewrite E, Hnone.
      + eexists. split; [apply parseResponse_opaque; [exact Hb | discriminate | exact E]|].
        split; reflexivity. }
  destruct Hr as (r & Hr & HR & HE).
  assert (Hv : value (MachineReadMem c address length) = Ok r).
  { unfold MachineReadMem, Get. fold params. fold req.
    rewrite (value_roundtrip_responded c req resp Hc). exact Hr. }
  split; [|split; [|split]].
  - intros jsonOut. unfold machineReadMemCmd. rewrite issued_bind_quiet.
    + reflexivity.
    + intros [resp'|err]; [destruct (HasErrors resp'); [|destruct jsonOut]|];
        reflexivity.
  - unfold machineReadMemCmd. fold length. rewrite value_bind, Hv, HE, HR. reflexivity.
  - unfold machineReadMemCmd. fold length. rewrite value_bind, Hv, HE, HR. reflexivity.
  - apply hexToBytes_EncodeToString.
Qed.

End MemoryCommands.

(** The commands on the reference runtime, with a device that answers
    200 to everything. *)

Lemma streamsStartCmd_outcome_witness :
  value (@streamsStartCmd Reference.runtime
           (Reference.answering (mkHTTPResponse 200 "200 OK" (Ok [])))
           ["video"; "1.2.3.4"])
  = FormatterSuccess "Stream started"
      (<["stream" := VString "video"]>
         (<["destination" := VString ("1.2.3.4" ++ ":" ++ stream_port "video")]> ∅)).
Proof.
  destruct (@streamsStartCmd_outcome Reference.runtime
              (Reference.answering (mkHTTPResponse 200 "200 OK" (Ok [])))
              "video" "1.2.3.4" (or_introl eq_refl)) as [_ Hresp].
  destruct (Hresp (mkHTTPResponse 200 "200 OK" (Ok [])) [] eq_refl eq_refl
              (or_introl eq_refl)) as [_ Hok].
  apply Hok.
  - unfold success_status. simpl. lia.
  - reflexivity.
Defined.

Lemma machineReadMemCmd_output_witness :
  value (@machineReadMemCmd Reference.runtime
           (Reference.answering (mkHTTPResponse 200 "200 OK" (Ok [x41; x42])))
           false ["0400"] None)
  = ReadMemDump
      ("Memory dump from $" ++ "0400" ++ " ("
         ++ fmt.Sprintf_d (Z.of_nat (length [x41; x42])) ++ " bytes)")
      (FormatMemoryDump [x41; x42] (dump_address "0400")).
Proof.
  destruct (@machineReadMemCmd_output Reference.runtime
              (Reference.answering (mkHTTPResponse 200 "200 OK" (Ok [x41; x42])))
              "0400" None (mkHTTPResponse 200 "200 OK" (Ok [x41; x42])) [x41; x42])
    as (_ & Hdump & _).
  - reflexivity.
  - reflexivity.
  - unfold success_status. simpl. lia.
  - reflexivity.
  - exact Hdump.
Defined.

Section UploadFailure.
Context `{Runtime}.

(** X17. An upload needs its local file: when the file does not open, each
    of the eight upload operations (the five runners, mount, load ROM and
    write-mem from a file) returns the error [failed to open file] and
    issues no request. *)
Theorem uploads_need_the_file (c : Client) (localFile err : string) :
  os_Open localFile = Err err ->
  forall (drive imageType mode address : string) (songNr : Z),
    let failed (m : M (result Response)) :=
      issued m = [] /\ value m = Err ("failed to open file: " ++ err) in
    failed (SidPlayUpload c localFile songNr) /\
    failed (ModPlayUpload c localFile) /\
    failed (LoadPRGUpload c localFile) /\
    failed (RunPRGUpload c localFile) /\
    failed (RunCRTUpload c localFile) /\
    failed (DrivesMountUpload c drive localFile imageType mode) /\
    failed (DrivesLoadROMUpload c drive localFile) /\
    failed (MachineWriteMemFile c address localFile).
Proof.
  intros Ho drive imageType mode address songNr failed.
  destruct (upload_without_file c localFile err Ho drive imageType mode songNr)
    as (-> & -> & -> & -> & -> & -> & ->).
  unfold MachineWriteMemFile. rewrite Ho.
  unfold failed. repeat split.
Qed.

End UploadFailure.

Lemma uploads_need_the_file_witness :
  let c := Reference.answering (mkHTTPResponse 200 "200 OK" (Ok [])) in
  let failed (m : M (result Response)) :=
    issued m = [] /\
    value m = Err ("failed to open file: "
                     ++ "open missing.sid: no such file or directory") in
  failed (@SidPlayUpload Reference.runtime c "missing.sid" 2) /\
  failed (@ModPlayUpload Reference.runtime c "missing.sid") /\
  failed (@LoadPRGUpload Reference.runtime c "missing.sid") /\
  failed (@RunPRGUpload Reference.runtime c "missing.sid") /\
  failed (@RunCRTUpload Reference.runtime c "missing.sid") /\
  failed (@DrivesMountUpload Reference.runtime c "8" "missing.sid" "d64" "readonly") /\
  failed (@DrivesLoadROMUpload Reference.runtime c "8" "missing.sid") /\
  failed (@MachineWriteMemFile Reference.runtime c "0400" "missing.sid").
Proof.
  intros c.
  apply (@uploads_need_the_file Reference.runtime c "missing.sid"
           "open missing.sid: no such file or directory" eq_refl
           "8" "d64" "readonly" "0400" 2).
Defined.

(** ** Dumps of consecutive blocks *)

Lemma GoInt_wrap_add (a b : Z) : GoInt.wrap (GoInt.wrap a + b) = GoInt.wrap (a + b).
Proof.
  unfold GoInt.wrap. f_equal.
  replace ((a + 2 ^ 63) mod 2 ^ 64 - 2 ^ 63 + b + 2 ^ 63)
    with ((a + 2 ^ 63) mod 2 ^ 64 + b) by lia.
  rewrite Zplus_mod_idemp_l. f_equal. lia.
Qed.

Lemma GoInt_add_assoc (s : Z) (n i : nat) :
  GoInt.add s (Z.of_nat (n + i)) = GoInt.add (GoInt.add s (Z.of_nat n)) (Z.of_nat i).
Proof.
  unfold GoInt.add. rewrite GoInt_wrap_add. f_equal. lia.
Qed.

Lemma cells_ext (f g : nat -> string) (l : list nat) :
  (forall j, In j l -> f j = g j) -> Spec.join (map f l) = Spec.join (map g l).
Proof.
  intros Hfg. induction l as [|j l IH]; [reflexivity|].
  cbn [map]. change (Spec.join (?x :: ?r)) with (x ++ Spec.join r).
  rewrite Hfg by (now left). rewrite IH; [reflexivity|].
  intros k Hk. apply Hfg. now right.
Qed.

(** A row that lies in the first block. *)
Lemma row_app_l (a b : list byte) (s : Z) (i : nat) :
  (i + 16 <= length a)%nat -> Spec.row (a ++ b) s i = Spec.row a s i.
Proof.
  intros Hi. unfold Spec.row. do 2 f_equal.
  f_equal; [|do 2 f_equal].
  - apply cells_ext. intros j Hj. apply in_seq in Hj.
    unfold Spec.cell, index. rewrite List.length_app.
    replace (i + j <? length a + length b)%nat with true
      by (symmetry; apply Nat.ltb_lt; lia).
    replace (i + j <? length a)%nat with true by (symmetry; apply Nat.ltb_lt; lia).
    now rewrite app_nth1 by lia.
  - rewrite skipn_app. replace (i - length a)%nat with 0%nat by lia.
    rewrite firstn_app, length_skipn.
    replace (16 - (length a - i))%nat with 0%nat by lia.
    simpl. now rewrite app_nil_r.
Qed.

(** A row that lies in the second block. *)
Lemma row_app_r (a b : list byte) (s : Z) (i : nat) :
  Spec.row (a ++ b) s (length a + i)
  = Spec.row b (GoInt.add s (Z.of_nat (length a))) i.
Proof.
  unfold Spec.row. rewrite GoInt_add_assoc. do 2 f_equal.
  f_equal; [|do 2 f_equal].
  - apply cells_ext. intros j Hj.
    unfold Spec.cell, index. rewrite List.length_app.
    replace (length a + i + j <? length a + length b)%nat
      with (i + j <? length b)%nat
      by (destruct (Nat.ltb_spec (i + j) (length b));
          symmetry; [apply Nat.ltb_lt | apply Nat.ltb_ge]; lia).
    rewrite app_nth2 by lia.
    now replace (length a + i + j - length a)%nat with (i + j)%nat by lia.
  - rewrite skipn_app.
    replace (length a + i - length a)%nat with i by lia.
    rewrite skipn_all2 by lia. reflexivity.
Qed.

(** X18. Dumps of consecutive blocks join: when the length of the first
    block is a multiple of 16, the dump of two blocks one after the other
    is the dump of the first followed by the dump of the second, counted
    from where the first ends. *)
Theorem FormatMemoryDump_app (a b : list byte) (startAddr : Z) :
  (length a mod 16 = 0)%nat ->
  FormatMemoryDump (a ++ b) startAddr
  = FormatMemoryDump a startAddr
      ++ FormatMemoryDump b (GoInt.add startAddr (Z.of_nat (length a))).
Proof.
  intros Hm. rewrite !FormatMemoryDump_rows.
  unfold Spec.format_dump, Spec.row_offsets. rewrite List.length_app.
  pose proof (Nat.div_mod_eq (length a) 16) as Ha. rewrite Hm in Ha.
  set (m := (length a / 16)%nat) in *.
  assert (Hla : length a = (16 * m)%nat) by lia.
  replace ((length a + length b + 15) / 16)%nat
    with (m + (length b + 15) / 16)%nat.
  2:{ rewrite Hla.
      replace (16 * m + length b + 15)%nat with (length b + 15 + m * 16)%nat by lia.
      rewrite Nat.div_add by lia. lia. }
  replace ((length a + 15) / 16)%nat with m.
  2:{ rewrite Hla.
      replace (16 * m + 15)%nat with (15 + m * 16)%nat by lia.
      rewrite Nat.div_add by lia. reflexivity. }
  rewrite seq_app, !map_app, join_app. f_equal.
  - f_equal. apply map_ext_in. intros i Hi.
    apply in_map_iff in Hi as (k & <- & Hk). apply in_seq in Hk.
    apply row_app_l. lia.
  - f_equal.
    assert (Hshift : forall n k,
               map (Spec.row (a ++ b) startAddr)
                 (map (fun k => (16 * k)%nat) (seq (m + k) n))
               = map (Spec.row b (GoInt.add startAddr (Z.of_nat (length a))))
                   (map (fun k => (16 * k)%nat) (seq k n))).
    { induction n as [|n IH]; intros k; [reflexivity|].
      cbn [seq map]. f_equal.
      - replace (16 * (m + k))%nat with (length a + 16 * k)%nat by lia.
        apply row_app_r.
      - replace (S (m + k)) with (m + S k)%nat by lia. apply IH. }
    specialize (Hshift ((length b + 15) / 16)%nat 0%nat).
    now rewrite Nat.add_0_r in Hshift.
Qed.

Lemma FormatMemoryDump_app_witness :
  FormatMemoryDump (repeat x41 16 ++ [x42]) 0x0400
  = FormatMemoryDump (repeat x41 16) 0x0400
      ++ FormatMemoryDump [x42] (GoInt.add 0x0400 (Z.of_nat (length (repeat x41 16)))).
Proof.
  apply (FormatMemoryDump_app (repeat x41 16) [x42] 0x0400). reflexivity.
Defined.
